(** * Interaction layer of the portfolio page (assets/js/script.js)

    A shallow embedding of the script's event handlers over a small model
    of the host document: nodes live in a store indexed by node identity,
    a class list is an ordered set of tokens, and a handler is a state
    transformer that either completes normally or throws a TypeError
    (dereferencing [null] or [undefined]), keeping the mutations made
    before the throw.

    The host is modelled as far as the handlers use it. A node carries its
    attributes, class list, text, markup, [src], [alt], [disabled] flag and
    validity as separate properties, and the list of its descendants;
    assigning one property changes that property of that node only. A
    handler is run on the element it is attached to ([this]); the
    propagation of an event to the listeners of other elements is not
    modelled. Time is a clock in milliseconds with the pending timers. *)

From Stdlib Require Import ZArith Ascii String.
From stdpp Require Import base decidable option list strings gmap functions.

Local Open Scope string_scope.
Local Open Scope list_scope.

(** ** Strings *)

(** Strings are sequences of 8-bit characters; [toLowerCase] is
    [String.prototype.toLowerCase] on them: the letters A..Z are mapped to
    a..z and every other character is kept. *)

Definition isUpper (c : ascii) : bool :=
  (65 <=? nat_of_ascii c)%nat && (nat_of_ascii c <=? 90)%nat.

Definition lowerChar (c : ascii) : ascii :=
  if isUpper c then ascii_of_nat (nat_of_ascii c + 32) else c.

Fixpoint toLowerCase (s : string) : string :=
  match s with
  | EmptyString => EmptyString
  | String c s' => String (lowerChar c) (toLowerCase s')
  end.


(** ** DOMTokenList *)

Module classList.

Definition t := list string.

Definition contains (tok : string) (cl : t) : bool :=
  bool_decide (tok ∈ cl).

Definition add (tok : string) (cl : t) : t :=
  if contains tok cl then cl else cl ++ [tok].

Definition remove (tok : string) (cl : t) : t :=
  filter (λ x, x ≠ tok) cl.

(** [toggle(tok)] *)
Definition toggle (tok : string) (cl : t) : t :=
  if contains tok cl then remove tok cl else add tok cl.

(** [toggle(tok, force)] *)
Definition toggle_force (tok : string) (force : bool) (cl : t) : t :=
  if force then add tok cl else remove tok cl.

End classList.

(** ** Nodes and the document *)

(** Node identity: two references are the same object iff they are equal. *)
Definition elem := nat.

Record Node := mkNode {
  attributes : gmap string string;  (* content attributes; [dataset.x] reads [data-x] *)
  classes : classList.t;             (* [classList] *)
  innerText : string;
  innerHTML : string;
  src : string;
  alt : string;
  disabled : bool;
  valid : bool;                      (* [validity.valid] of a form control *)
  descendants : list elem;           (* in tree order *)
  elements : list elem               (* the controls of a form *)
}.

Definition set_attributes (f : gmap string string → gmap string string)
    (n : Node) : Node :=
  mkNode (f (attributes n)) (classes n) (innerText n) (innerHTML n) (src n)
         (alt n) (disabled n) (valid n) (descendants n) (elements n).
Definition set_classes (f : classList.t → classList.t) (n : Node) : Node :=
  mkNode (attributes n) (f (classes n)) (innerText n) (innerHTML n) (src n)
         (alt n) (disabled n) (valid n) (descendants n) (elements n).
Definition set_innerText (v : string) (n : Node) : Node :=
  mkNode (attributes n) (classes n) v (innerHTML n) (src n)
         (alt n) (disabled n) (valid n) (descendants n) (elements n).
Definition set_innerHTML (v : string) (n : Node) : Node :=
  mkNode (attributes n) (classes n) (innerText n) v (src n)
         (alt n) (disabled n) (valid n) (descendants n) (elements n).
Definition set_src (v : string) (n : Node) : Node :=
  mkNode (attributes n) (classes n) (innerText n) (innerHTML n) v
         (alt n) (disabled n) (valid n) (descendants n) (elements n).
Definition set_alt (v : string) (n : Node) : Node :=
  mkNode (attributes n) (classes n) (innerText n) (innerHTML n) (src n)
         v (disabled n) (valid n) (descendants n) (elements n).
Definition set_disabled (v : bool) (n : Node) : Node :=
  mkNode (attributes n) (classes n) (innerText n) (innerHTML n) (src n)
         (alt n) v (valid n) (descendants n) (elements n).

(** The two closures of the loader's DOMContentLoaded handler. *)
Inductive Callback :=
  | HideLoaderOnLoad   (* the window "load" listener *)
  | BackupTimeout.     (* the function given to setTimeout *)

(** The state the script runs in. *)
Record World := mkWorld {
  dom : elem → Node;                 (* the node store *)
  document : list elem;              (* the elements of the document, tree order *)
  scrollCalls : list (Z * Z);        (* arguments of [window.scrollTo], latest first *)
  activeFilterBtn : option elem;     (* the [let] of initFiltering; None is undefined *)
  now : nat;                         (* the clock, in milliseconds *)
  timers : list (nat * Callback);    (* pending timeouts with their due time *)
  loadListeners : list Callback      (* the window's "load" listeners *)
}.

Definition set_dom (f : (elem → Node) → (elem → Node)) (w : World) : World :=
  mkWorld (f (dom w)) (document w) (scrollCalls w) (activeFilterBtn w)
          (now w) (timers w) (loadListeners w).
Definition set_scrollCalls (f : list (Z * Z) → list (Z * Z)) (w : World) : World :=
  mkWorld (dom w) (document w) (f (scrollCalls w)) (activeFilterBtn w)
          (now w) (timers w) (loadListeners w).
Definition set_activeFilterBtn (v : option elem) (w : World) : World :=
  mkWorld (dom w) (document w) (scrollCalls w) v
          (now w) (timers w) (loadListeners w).
Definition set_now (v : nat) (w : World) : World :=
  mkWorld (dom w) (document w) (scrollCalls w) (activeFilterBtn w)
          v (timers w) (loadListeners w).
Definition set_timers (f : list (nat * Callback) → list (nat * Callback))
    (w : World) : World :=
  mkWorld (dom w) (document w) (scrollCalls w) (activeFilterBtn w)
          (now w) (f (timers w)) (loadListeners w).
Definition set_loadListeners (f : list Callback → list Callback)
    (w : World) : World :=
  mkWorld (dom w) (document w) (scrollCalls w) (activeFilterBtn w)
          (now w) (timers w) (f (loadListeners w)).


(** ** Handlers as state transformers *)

Inductive completion (A : Type) : Type :=
  | Normal (a : A)
  | TypeError.
Arguments Normal {A} a.
Arguments TypeError {A}.

Definition JS (A : Type) : Type := World → World * completion A.

Definition ret {A} (a : A) : JS A := λ w, (w, Normal a).

Definition bind {A B} (m : JS A) (k : A → JS B) : JS B :=
  λ w, match m w with
       | (w', Normal a) => k a w'
       | (w', TypeError) => (w', TypeError)
       end.

Declare Scope js_scope.
Delimit Scope js_scope with js.
Notation "'let!' x ':=' m 'in' k" := (bind m (λ x, k))
  (at level 10, x name, m at level 100, k at level 200) : js_scope.
Notation "m ';;;' k" := (bind m (λ _, k))
  (at level 100, k at level 200, right associativity) : js_scope.
Local Open Scope js_scope.

(** The final state and the outcome of running a handler. *)
Definition exec {A} (m : JS A) (w : World) : World := fst (m w).
Definition outcome {A} (m : JS A) (w : World) : completion A := snd (m w).

(** Reading through a reference that may be [null] or [undefined]. *)
Definition deref (r : option elem) : JS elem :=
  λ w, match r with
       | Some e => (w, Normal e)
       | None => (w, TypeError)
       end.

Definition get {A} (field : Node → A) (e : elem) : JS A :=
  λ w, (w, Normal (field (dom w e))).

Definition update (f : Node → Node) (e : elem) : JS unit :=
  λ w, (set_dom (λ σ, <[e := f (σ e)]> σ) w, Normal tt).

Fixpoint forEach {A} (f : A → JS unit) (l : list A) : JS unit :=
  match l with
  | [] => ret tt
  | x :: l' => f x ;;; forEach f l'
  end.

(** [forEach((x, index) => ...)], counting from [i]. *)
Fixpoint forEachFrom {A} (i : nat) (f : A → nat → JS unit) (l : list A) : JS unit :=
  match l with
  | [] => ret tt
  | x :: l' => f x i ;;; forEachFrom (S i) f l'
  end.

(** ** Selectors *)

Inductive selector :=
  | Attr (name : string)    (* [name] *)
  | Class (name : string).  (* .name *)

Definition matches (s : selector) (n : Node) : bool :=
  match s with
  | Attr a => bool_decide (is_Some (attributes n !! a))
  | Class c => classList.contains c (classes n)
  end.

Definition querySelector (s : selector) (scope : list elem) (σ : elem → Node)
  : option elem :=
  List.find (λ e, matches s (σ e)) scope.

Definition querySelectorAll (s : selector) (scope : list elem) (σ : elem → Node)
  : list elem :=
  List.filter (λ e, matches s (σ e)) scope.

(** [dataset.key], where [attr] is the attribute name [data-key]. *)
Definition dataset (attr : string) (n : Node) : option string :=
  attributes n !! attr.

(** ** The element registry ([DOMElements]) *)

Module Sidebar.
Record t := mk { container : option elem; toggleBtn : option elem }.
End Sidebar.

Module Modal.
Record t := mk {
  container : option elem;
  closeBtn : option elem;
  image : option elem;
  title : option elem;
  text : option elem
}.
End Modal.

Module Technologies.
Record t := mk { items : list elem; modal : Modal.t; overlay : option elem }.
End Technologies.

Module Filter.
Record t := mk {
  select : option elem;
  selectItems : list elem;
  selectValue : option elem;
  filterBtns : list elem;
  filterItems : list elem
}.
End Filter.

Module Form.
Record t := mk {
  container : option elem;
  inputs : list elem;
  submitBtn : option elem
}.
End Form.

Module Navigation.
Record t := mk { links : list elem; pages : list elem }.
End Navigation.

Record Registry := mkRegistry {
  sidebar : Sidebar.t;
  technologies : Technologies.t;
  filter : Filter.t;
  form : Form.t;
  navigation : Navigation.t
}.

(** The registry as the script builds it, by one lookup per marker
    attribute over the document. *)
Definition DOMElements (w : World) : Registry :=
  let q1 a := querySelector (Attr a) (document w) (dom w) in
  let qAll a := querySelectorAll (Attr a) (document w) (dom w) in
  {| sidebar :=
       {| Sidebar.container := q1 "data-sidebar";
          Sidebar.toggleBtn := q1 "data-sidebar-btn" |};
     technologies :=
       {| Technologies.items := qAll "data-technologies-item";
          Technologies.modal :=
            {| Modal.container := q1 "data-modal-container";
               Modal.closeBtn := q1 "data-modal-close-btn";
               Modal.image := q1 "data-modal-img";
               Modal.title := q1 "data-modal-title";
               Modal.text := q1 "data-modal-text" |};
          Technologies.overlay := q1 "data-overlay" |};
     filter :=
       {| Filter.select := q1 "data-select";
          Filter.selectItems := qAll "data-select-item";
          Filter.selectValue := q1 "data-selecct-value";
          Filter.filterBtns := qAll "data-filter-btn";
          Filter.filterItems := qAll "data-filter-item" |};
     form :=
       {| Form.container := q1 "data-form";
          Form.inputs := qAll "data-form-input";
          Form.submitBtn := q1 "data-form-btn" |};
     navigation :=
       {| Navigation.links := qAll "data-nav-link";
          Navigation.pages := qAll "data-page" |} |}.

(** ** Utility *)

Definition toggleElementActive (elem : option elem) : JS unit :=
  let! e := deref elem in
  update (set_classes (classList.toggle "active")) e.

(** ** Sidebar *)

(** The click listener of the sidebar button. *)
Definition sidebarBtn_onclick (R : Registry) : JS unit :=
  toggleElementActive (Sidebar.container (sidebar R)).

(** ** Technologies modal *)

Definition toggleModal (R : Registry) : JS unit :=
  let modal := Technologies.modal (technologies R) in
  let overlay := Technologies.overlay (technologies R) in
  (let! c := deref (Modal.container modal) in
   update (set_classes (classList.toggle "active")) c) ;;;
  (let! o := deref overlay in
   update (set_classes (classList.toggle "active")) o).

(** [this.querySelector(sel)] *)
Definition querySelectorIn (this : elem) (s : selector) : JS (option elem) :=
  λ w, (w, Normal (querySelector s (descendants (dom w this)) (dom w))).

(** [target.prop = this.querySelector(sel).prop] *)
Definition copyField {A} (this : elem) (s : selector)
    (prop : Node → A) (set_prop : A → Node → Node) (target : option elem)
  : JS unit :=
  let! found := querySelectorIn this s in
  let! source := deref found in
  let! v := get prop source in
  let! t := deref target in
  update (set_prop v) t.

(** Two states with the same markup: attributes and tree shape, which is
    all that a lookup by attribute depends on. *)
Definition same_markup (w w' : World) : Prop :=
  ∀ e, attributes (dom w' e) = attributes (dom w e)
       ∧ descendants (dom w' e) = descendants (dom w e).

(** The click listener of a technologies item. *)
Definition technologiesItem_onclick (R : Registry) (this : elem) : JS unit :=
  let modal := Technologies.modal (technologies R) in
  copyField this (Attr "data-technologies-avatar") src set_src (Modal.image modal) ;;;
  copyField this (Attr "data-technologies-avatar") alt set_alt (Modal.image modal) ;;;
  copyField this (Attr "data-technologies-title") innerHTML set_innerHTML
            (Modal.title modal) ;;;
  copyField this (Attr "data-technologies-text") innerHTML set_innerHTML
            (Modal.text modal) ;;;
  toggleModal R.

(** The click listeners of the close button and of the overlay. *)
Definition closeBtn_onclick (R : Registry) : JS unit := toggleModal R.
Definition overlay_onclick (R : Registry) : JS unit := toggleModal R.

(** ** Filtering *)

(** The condition of the loop body:
    [selectedValue === "all" || selectedValue === item.dataset.category]. *)
Definition shown (selectedValue : string) (n : Node) : bool :=
  bool_decide (selectedValue = "all")
  || bool_decide (Some selectedValue = dataset "data-category" n).

(** The arrow function given to [filterItems.forEach]. *)
Definition filterStep (selectedValue : string) (item : elem) : JS unit :=
  let! matched := get (shown selectedValue) item in
  if matched
  then update (set_classes (classList.add "active")) item
  else update (set_classes (classList.remove "active")) item.

Definition filterByCategory (R : Registry) (selectedValue : string) : JS unit :=
  forEach (filterStep selectedValue) (Filter.filterItems (filter R)).

(** The click listener of the dropdown: [toggleElementActive(this)]. *)
Definition select_onclick (this : elem) : JS unit :=
  toggleElementActive (Some this).

(** Reading and assigning the variable [activeFilterBtn]. *)
Definition readActiveFilterBtn : JS (option elem) :=
  λ w, (w, Normal (activeFilterBtn w)).
Definition writeActiveFilterBtn (v : option elem) : JS unit :=
  λ w, (set_activeFilterBtn v w, Normal tt).

(** The statement of initFiltering between the two groups of listeners:
    [let activeFilterBtn = filterBtns[0]]. *)
Definition initFiltering_activeFilterBtn (R : Registry) : JS unit :=
  writeActiveFilterBtn (Filter.filterBtns (filter R) !! 0%nat).

(** The click listener of a dropdown option. *)
Definition selectItem_onclick (R : Registry) (this : elem) : JS unit :=
  let! t := get innerText this in
  let selectedValue := toLowerCase t in
  let! label := get innerText this in
  let! sv := deref (Filter.selectValue (filter R)) in
  update (set_innerText label) sv ;;;
  toggleElementActive (Filter.select (filter R)) ;;;
  filterByCategory R selectedValue.

(** The click listener of a filter button. *)
Definition filterBtn_onclick (R : Registry) (this : elem) : JS unit :=
  let! t := get innerText this in
  let selectedValue := toLowerCase t in
  let! label := get innerText this in
  let! sv := deref (Filter.selectValue (filter R)) in
  update (set_innerText label) sv ;;;
  filterByCategory R selectedValue ;;;
  let! tracked := readActiveFilterBtn in
  let! previous := deref tracked in
  update (set_classes (classList.remove "active")) previous ;;;
  update (set_classes (classList.add "active")) this ;;;
  writeActiveFilterBtn (Some this).

(** An element is active when it carries the "active" class: a filter
    button is then highlighted, a filter item or the modal shown. *)
Definition isActive (w : World) (b : elem) : bool :=
  classList.contains "active" (classes (dom w b)).

(** Button [a] is the tracked one and the only highlighted one. *)
Definition tracks (R : Registry) (w : World) (a : elem) : Prop :=
  activeFilterBtn w = Some a
  ∧ Forall (λ b, isActive w b = true ↔ b = a) (Filter.filterBtns (filter R)).

(** A series of events: each handler runs on the state the previous one
    left, whether that one completed or threw. *)
Definition events (hs : list (JS unit)) (w : World) : World :=
  foldl (λ w h, exec h w) w hs.

(** Every handler of the series completes normally. *)
Fixpoint allNormal (hs : list (JS unit)) (w : World) : Prop :=
  match hs with
  | [] => True
  | h :: hs' => outcome h w = Normal tt ∧ allNormal hs' (exec h w)
  end.

(** ** Contact form *)

(** [form.checkValidity()]: every control of the form that is a candidate
    for constraint validation (a disabled control is barred from it)
    satisfies its constraints. *)
Definition formValid (w : World) (form : elem) : bool :=
  forallb (λ c, disabled (dom w c) || valid (dom w c)) (elements (dom w form)).

Definition checkValidity (form : elem) : JS bool :=
  λ w, (w, Normal (formValid w form)).

(** The input listener of a form field. *)
Definition formInput_oninput (R : Registry) : JS unit :=
  let! container := deref (Form.container (form R)) in
  let! ok := checkValidity container in
  let! btn := deref (Form.submitBtn (form R)) in
  update (set_disabled (negb ok)) btn.

(** ** Page navigation *)

Definition scrollTo (x y : Z) : JS unit :=
  λ w, (set_scrollCalls (cons (x, y)) w, Normal tt).

(** [clickedPageName === page.dataset.page] *)
Definition isTarget (clickedPageName : string) (n : Node) : bool :=
  bool_decide (Some clickedPageName = dataset "data-page" n).

(** The arrow function given to [pages.forEach]. *)
Definition navStep (links : list elem) (clickedPageName : string)
    (page : elem) (pageIndex : nat) : JS unit :=
  let! isTargetPage := get (isTarget clickedPageName) page in
  update (set_classes (classList.toggle_force "active" isTargetPage)) page ;;;
  (let! link := deref (links !! pageIndex) in
   update (set_classes (classList.toggle_force "active" isTargetPage)) link) ;;;
  if isTargetPage then scrollTo 0 0 else ret tt.

(** The pages whose identifier is the clicked name. *)
Definition targets (clickedPageName : string) (w : World) (pages : list elem)
  : list elem :=
  List.filter (λ p, isTarget clickedPageName (dom w p)) pages.

(** The click listener of a navigation link. *)
Definition navLink_onclick (R : Registry) (this : elem) : JS unit :=
  let! html := get innerHTML this in
  let clickedPageName := toLowerCase html in
  forEachFrom 0 (navStep (Navigation.links (navigation R)) clickedPageName)
              (Navigation.pages (navigation R)).

(** ** Scroll animations *)

Record IntersectionObserverEntry := mkEntry {
  target : elem;
  isIntersecting : bool
}.

(** The arrow function given to [entries.forEach]. *)
Definition revealStep (entry : IntersectionObserverEntry) : JS unit :=
  if isIntersecting entry
  then update (set_classes (classList.add "visible")) (target entry)
  else ret tt.

(** The callback of the IntersectionObserver (built with threshold 0.1);
    the host calls it with the entries whose intersection has changed. *)
Definition observer_callback (entries : list IntersectionObserverEntry) : JS unit :=
  forEach revealStep entries.

(** An element is revealed when it carries the "visible" class. *)
Definition visible (w : World) (e : elem) : bool :=
  classList.contains "visible" (classes (dom w e)).

(** ** Page loader *)

Definition documentQuerySelector (s : selector) : JS (option elem) :=
  λ w, (w, Normal (querySelector s (document w) (dom w))).

(** [document.querySelector(".page-loader")] in state [w]. *)
Definition loaderOf (w : World) : option elem :=
  querySelector (Class "page-loader") (document w) (dom w).

(** The loader is hidden when it carries the "hidden" class. *)
Definition hidden (w : World) (l : elem) : bool :=
  classList.contains "hidden" (classes (dom w l)).

Definition hideLoaderOnLoad : JS unit :=
  let! loader := documentQuerySelector (Class "page-loader") in
  match loader with
  | Some l => update (set_classes (classList.add "hidden")) l
  | None => ret tt
  end.

Definition backupTimeout : JS unit :=
  let! loader := documentQuerySelector (Class "page-loader") in
  match loader with
  | Some l =>
      let! isHidden := get (λ n, classList.contains "hidden" (classes n)) l in
      if negb isHidden
      then update (set_classes (classList.add "hidden")) l
      else ret tt
  | None => ret tt
  end.

Definition call (c : Callback) : JS unit :=
  match c with
  | HideLoaderOnLoad => hideLoaderOnLoad
  | BackupTimeout => backupTimeout
  end.

Definition addLoadListener (c : Callback) : JS unit :=
  λ w, (set_loadListeners (λ l, l ++ [c]) w, Normal tt).

Definition setTimeout (c : Callback) (delay : nat) : JS unit :=
  λ w, (set_timers (λ l, l ++ [(now w + delay, c)]) w, Normal tt).

(** The second DOMContentLoaded listener of the script. *)
Definition loader_onDOMContentLoaded : JS unit :=
  addLoadListener HideLoaderOnLoad ;;;
  setTimeout BackupTimeout 3000.

(** The host fires the window's load event: every listener runs. *)
Definition fireLoad : JS unit :=
  λ w, forEach call (loadListeners w) w.

(** The host lets the clock reach [t]: the timers due by then run, in
    the order they were set, and are discarded. *)
Definition advanceTo (t : nat) : JS unit :=
  λ w,
    let due := List.filter (λ p, fst p <=? t)%nat (timers w) in
    let w' := set_timers (List.filter (λ p, negb (fst p <=? t)%nat))
                         (set_now (max (now w) t) w) in
    forEach (λ p, call (snd p)) due w'.

(** A click on a dropdown option or on a filter button. *)
Definition filterClick (R : Registry) (c : bool * elem) : JS unit :=
  if fst c then selectItem_onclick R (snd c) else filterBtn_onclick R (snd c).

(** ** Start-up: the registration of the listeners *)

(** The functions the script attaches to elements. [ToggleModal] is the
    function [toggleModal] itself, one object however often it is
    passed; each of the others is a function expression, which gives a
    new object every time it is evaluated. *)
Inductive ElementHandler :=
  | SidebarToggle      (* () => toggleElementActive(container) *)
  | ItemClick          (* the listener of a technologies item *)
  | ToggleModal        (* toggleModal *)
  | SelectToggle       (* function () { toggleElementActive(this) } *)
  | SelectItemClick    (* the listener of a dropdown option *)
  | FilterBtnClick     (* the listener of a filter button *)
  | FormInput          (* the listener of a form field *)
  | NavLinkClick.      (* the listener of a navigation link *)

(** The two functions attached to the document. *)
Inductive DocumentHandler :=
  | ScrollAnimationsSetup   (* of initScrollAnimations *)
  | LoaderSetup.            (* of the end of the script *)

Inductive Listener :=
  | OnElement (e : elem) (type : string) (h : ElementHandler)
  | OnDocument (type : string) (h : DocumentHandler).

Global Instance ElementHandler_eq_dec : EqDecision ElementHandler.
Proof. solve_decision. Defined.
Global Instance DocumentHandler_eq_dec : EqDecision DocumentHandler.
Proof. solve_decision. Defined.
Global Instance Listener_eq_dec : EqDecision Listener.
Proof. solve_decision. Defined.

(** The page while the script starts: the state and the listeners
    registered so far, in order. *)
Record Page := mkPage {
  world : World;
  listeners : list Listener
}.

Definition Init (A : Type) : Type := Page → Page * completion A.

Definition retI {A} (a : A) : Init A := λ p, (p, Normal a).

Definition bindI {A B} (m : Init A) (k : A → Init B) : Init B :=
  λ p, match m p with
       | (p', Normal a) => k a p'
       | (p', TypeError) => (p', TypeError)
       end.

Declare Scope init_scope.
Delimit Scope init_scope with init.
Notation "'let!' x ':=' m 'in' k" := (bindI m (λ x, k))
  (at level 10, x name, m at level 100, k at level 200) : init_scope.
Notation "m ';;;' k" := (bindI m (λ _, k))
  (at level 100, k at level 200, right associativity) : init_scope.

Definition execI {A} (m : Init A) (p : Page) : Page := fst (m p).
Definition outcomeI {A} (m : Init A) (p : Page) : completion A := snd (m p).

(** A statement of a handler run while the script starts. *)
Definition liftJS {A} (m : JS A) : Init A :=
  λ p, (mkPage (exec m (world p)) (listeners p), outcome m (world p)).

Fixpoint forEachI {A} (f : A → Init unit) (l : list A) : Init unit :=
  match l with
  | [] => retI tt
  | x :: l' => bindI (f x) (λ _, forEachI f l')
  end.

Definition sameObject (h : ElementHandler) : bool :=
  match h with
  | ToggleModal => true
  | _ => false
  end.

(** [target.addEventListener(type, h)]: a TypeError on a missing target;
    a listener with the same type and the same function object as one
    already on the target is not added again. *)
Definition addEventListener (target : option elem) (type : string)
    (h : ElementHandler) : Init unit :=
  λ p, match target with
       | None => (p, TypeError)
       | Some e =>
           if sameObject h && bool_decide (OnElement e type h ∈ listeners p)
           then (p, Normal tt)
           else (mkPage (world p) (listeners p ++ [OnElement e type h]), Normal tt)
       end.

(** [document.addEventListener(type, function () {...})] *)
Definition documentAddEventListener (type : string) (h : DocumentHandler)
  : Init unit :=
  λ p, (mkPage (world p) (listeners p ++ [OnDocument type h]), Normal tt).

Definition initSidebar (R : Registry) : Init unit :=
  addEventListener (Sidebar.toggleBtn (sidebar R)) "click" SidebarToggle.

Definition inittechnologiesModal (R : Registry) : Init unit :=
  (forEachI (λ item, addEventListener (Some item) "click" ItemClick)
            (Technologies.items (technologies R)) ;;;
   addEventListener (Modal.closeBtn (Technologies.modal (technologies R)))
                    "click" ToggleModal ;;;
   addEventListener (Technologies.overlay (technologies R)) "click" ToggleModal)%init.

Definition initFiltering (R : Registry) : Init unit :=
  (addEventListener (Filter.select (filter R)) "click" SelectToggle ;;;
   forEachI (λ item, addEventListener (Some item) "click" SelectItemClick)
            (Filter.selectItems (filter R)) ;;;
   liftJS (initFiltering_activeFilterBtn R) ;;;
   forEachI (λ btn, addEventListener (Some btn) "click" FilterBtnClick)
            (Filter.filterBtns (filter R)))%init.

Definition initContactForm (R : Registry) : Init unit :=
  forEachI (λ input, addEventListener (Some input) "input" FormInput)
           (Form.inputs (form R)).

Definition initPageNavigation (R : Registry) : Init unit :=
  forEachI (λ link, addEventListener (Some link) "click" NavLinkClick)
           (Navigation.links (navigation R)).

Definition initScrollAnimations : Init unit :=
  documentAddEventListener "DOMContentLoaded" ScrollAnimationsSetup.

Definition initPortfolio (R : Registry) : Init unit :=
  (initSidebar R ;;;
   inittechnologiesModal R ;;;
   initFiltering R ;;;
   initContactForm R ;;;
   initPageNavigation R ;;;
   initScrollAnimations)%init.

(** The script from top to bottom: the registry is built, the features
    are initialised, and the loader's listener is attached last. *)
Definition script : Init unit :=
  λ p, let R := DOMElements (world p) in
       (initPortfolio R ;;;
        documentAddEventListener "DOMContentLoaded" LoaderSetup)%init p.

(** The body of each listener, run on the element it is attached to. *)
Definition run (R : Registry) (h : ElementHandler) (this : elem) : JS unit :=
  match h with
  | SidebarToggle => sidebarBtn_onclick R
  | ItemClick => technologiesItem_onclick R this
  | ToggleModal => toggleModal R
  | SelectToggle => select_onclick this
  | SelectItemClick => selectItem_onclick R this
  | FilterBtnClick => filterBtn_onclick R this
  | FormInput => formInput_oninput R
  | NavLinkClick => navLink_onclick R this
  end.

(** The listeners of element [e] for events of type [type], in the
    order they were attached. *)
Definition handlersOf (ls : list Listener) (e : elem) (type : string)
  : list ElementHandler :=
  omap (λ l, match l with
             | OnElement e' type' h =>
                 if bool_decide (e' = e ∧ type' = type) then Some h else None
             | OnDocument _ _ => None
             end) ls.

(** An event of type [type] reaches element [e]: its listeners run in
    order, each on the state the previous one left. *)
Definition dispatchAt (R : Registry) (e : elem) (type : string) (p : Page) : Page :=
  mkPage (events (map (λ h, run R h e) (handlersOf (listeners p) e type)) (world p))
         (listeners p).

(** The listeners of the technologies feature: one per item, then
    [toggleModal] on the close button and, unless it is the same element,
    on the overlay. *)
Definition modalListeners (R : Registry) (cb ov : elem) : list Listener :=
  map (λ x, OnElement x "click" ItemClick) (Technologies.items (technologies R))
  ++ [OnElement cb "click" ToggleModal]
  ++ (if decide (ov = cb) then [] else [OnElement ov "click" ToggleModal]).

(** The listeners of the features initialised after the modal. *)
Definition laterListeners (R : Registry) (sel : elem) : list Listener :=
  [OnElement sel "click" SelectToggle]
  ++ map (λ x, OnElement x "click" SelectItemClick) (Filter.selectItems (filter R))
  ++ map (λ x, OnElement x "click" FilterBtnClick) (Filter.filterBtns (filter R))
  ++ map (λ x, OnElement x "input" FormInput) (Form.inputs (form R))
  ++ map (λ x, OnElement x "click" NavLinkClick) (Navigation.links (navigation R))
  ++ [OnDocument "DOMContentLoaded" ScrollAnimationsSetup;
      OnDocument "DOMContentLoaded" LoaderSetup].

(** Two states in which every lookup by attribute gives the same result:
    the same document and the same attributes on every node. *)
Definition sameLookups (w w' : World) : Prop :=
  document w' = document w ∧ ∀ e, attributes (dom w' e) = attributes (dom w e).

(** ** What a node is besides its classes *)

Definition content (n : Node) :=
  (attributes n, innerText n, innerHTML n, src n, alt n,
   disabled n, valid n, descendants n, elements n).

(** The classes of a node other than [tok], in order. *)
Definition otherClasses (tok : string) (n : Node) : classList.t :=
  classList.remove tok (classes n).

(** ** Vocabulary of the properties *)

(** [respects I m]: the state after running [m], whether it completes or
    throws, is related by [I] to the state before. For a preorder [I] this
    is compositional. *)
Definition respects {A} (I : World → World → Prop) (m : JS A) : Prop :=
  ∀ w, I w (exec m w).

(** Observations of the state that a step does not change. *)
Definition keeps {A B} (obs : World → B) (m : JS A) : Prop :=
  respects (λ w w', obs w' = obs w) m.

(** ** A sample page

    A document with every marked element the script looks up: one
    technologies item, the modal, the dropdown with two options, three
    filter buttons, three filter items, the contact form, two navigation
    links with their pages, and the loader. *)

Definition blank : Node :=
  {| attributes := ∅; classes := []; innerText := ""; innerHTML := "";
     src := ""; alt := ""; disabled := false; valid := true;
     descendants := []; elements := [] |}.

(** An element with one attribute, its classes and its text. *)
Definition element (attr value : string) (cls : list string) (txt : string) : Node :=
  {| attributes := {[ attr := value ]}; classes := cls; innerText := txt;
     innerHTML := txt; src := ""; alt := ""; disabled := false; valid := true;
     descendants := []; elements := [] |}.

Definition sampleNodes (e : elem) : Node :=
  match e with
  | 0 => element "data-sidebar" "" ["sidebar"] ""
  | 1 => element "data-sidebar-btn" "" [] "Show Contacts"
  | 2 => {| attributes := {[ "data-technologies-item" := "" ]};
            classes := ["content-card"]; innerText := "Rocq Proofs";
            innerHTML := ""; src := ""; alt := ""; disabled := false;
            valid := true; descendants := [3; 4; 5]; elements := [] |}
  | 3 => {| attributes := {[ "data-technologies-avatar" := "" ]};
            classes := []; innerText := ""; innerHTML := "";
            src := "https://example.org/rocq.png"; alt := "Rocq";
            disabled := false; valid := true; descendants := [];
            elements := [] |}
  | 4 => element "data-technologies-title" "" ["h4"] "Rocq"
  | 5 => {| attributes := {[ "data-technologies-text" := "" ]};
            classes := []; innerText := "Proofs"; innerHTML := "<p>Proofs</p>";
            src := ""; alt := ""; disabled := false; valid := true;
            descendants := []; elements := [] |}
  | 6 => element "data-modal-container" "" ["modal-container"] ""
  | 7 => element "data-modal-close-btn" "" [] ""
  | 8 => element "data-modal-img" "" [] ""
  | 9 => element "data-modal-title" "" [] ""
  | 10 => element "data-modal-text" "" [] ""
  | 11 => element "data-overlay" "" ["overlay"] ""
  | 12 => element "data-select" "" ["filter-select"] ""
  | 13 => element "data-select-item" "" [] "All"
  | 14 => element "data-select-item" "" [] "Web design"
  | 15 => element "data-selecct-value" "" ["select-value"] "Select category"
  | 16 => element "data-filter-btn" "" ["active"] "All"
  | 17 => element "data-filter-btn" "" [] "Web design"
  | 18 => element "data-filter-btn" "" [] "Applications"
  | 19 => element "data-filter-item" "" ["project-item"; "active"] ""
  | 20 => element "data-filter-item" "" ["project-item"; "active"] ""
  | 21 => element "data-filter-item" "" ["project-item"; "active"] ""
  | 22 => {| attributes := {[ "data-form" := "" ]}; classes := ["form"];
             innerText := ""; innerHTML := ""; src := ""; alt := "";
             disabled := false; valid := true; descendants := [23; 24; 25];
             elements := [23; 24; 25] |}
  | 23 => element "data-form-input" "" ["form-input"] ""
  | 24 => {| attributes := {[ "data-form-input" := "" ]};
             classes := ["form-input"]; innerText := ""; innerHTML := "";
             src := ""; alt := ""; disabled := false; valid := false;
             descendants := []; elements := [] |}
  | 25 => {| attributes := {[ "data-form-btn" := "" ]}; classes := ["form-btn"];
             innerText := "Send Message"; innerHTML := "Send Message";
             src := ""; alt := ""; disabled := true; valid := true;
             descendants := []; elements := [] |}
  | 26 => element "data-nav-link" "" ["navbar-link"; "active"] "About"
  | 27 => element "data-nav-link" "" ["navbar-link"] "Resume"
  | 28 => element "data-page" "about" ["about"; "active"] ""
  | 29 => element "data-page" "resume" ["resume"] ""
  | 30 => {| attributes := ∅; classes := ["page-loader"]; innerText := "";
             innerHTML := ""; src := ""; alt := ""; disabled := false;
             valid := true; descendants := []; elements := [] |}
  | _ => blank
  end.

(** The category attributes of the three filter items. *)
Definition sampleCategories (e : elem) : Node :=
  match e with
  | 19 => set_attributes <["data-category" := "web design"]> (sampleNodes 19)
  | 20 => set_attributes <["data-category" := "applications"]> (sampleNodes 20)
  | 21 => set_attributes <["data-category" := "Web development"]> (sampleNodes 21)
  | _ => sampleNodes e
  end.

Definition sampleLoaded : World :=
  {| dom := sampleCategories; document := seq 0 31; scrollCalls := [];
     activeFilterBtn := None; now := 0; timers := []; loadListeners := [] |}.

Definition sample : Registry := DOMElements sampleLoaded.

(** The sample page once initFiltering has run. *)
Definition samplePage : World :=
  exec (initFiltering_activeFilterBtn sample) sampleLoaded.

(** The sample page with the modal open: the item has been clicked once. *)
Definition sampleOpen : World :=
  exec (technologiesItem_onclick sample 2) samplePage.

(** The sample page with the label's attribute spelled [data-select-value],
    which the script's lookup of [data-selecct-value] does not find. *)
Definition sampleNoLabel : World :=
  set_dom (λ σ, <[15 := element "data-select-value" "" ["select-value"]
                                "Select category"]> σ) samplePage.

(** The sample page with its second navigation link taken out: one link
    for two pages. *)
Definition sampleOneLink : World :=
  set_dom (λ σ, <[27 := blank]> σ) samplePage.


(** * Properties *)

(** Decidable facts about the sample page are settled by evaluation. *)
Ltac by_compute := apply (bool_decide_unpack _); vm_compute; exact I.

(** ** Class lists *)

Section classList_facts.
Import classList.
Implicit Types (tok u : string) (cl : classList.t).

Lemma contains_true tok cl : contains tok cl = true ↔ tok ∈ cl.
Proof. unfold contains. by rewrite bool_decide_eq_true. Qed.

Lemma contains_false tok cl : contains tok cl = false ↔ tok ∉ cl.
Proof. unfold contains. by rewrite bool_decide_eq_false. Qed.

Lemma elem_of_add tok u cl : u ∈ add tok cl ↔ u = tok ∨ u ∈ cl.
Proof.
  unfold add. destruct (contains tok cl) eqn:E.
  - apply contains_true in E. split; [by right | by intros [->|]].
  - rewrite elem_of_app, list_elem_of_singleton. tauto.
Qed.

Lemma elem_of_remove tok u cl : u ∈ remove tok cl ↔ u ≠ tok ∧ u ∈ cl.
Proof. unfold remove. by rewrite list_elem_of_filter. Qed.

Lemma contains_add_eq tok cl : contains tok (add tok cl) = true.
Proof. apply contains_true, elem_of_add. by left. Qed.

Lemma contains_add_ne tok u cl :
  u ≠ tok → contains u (add tok cl) = contains u cl.
Proof.
  intros Hne. apply bool_decide_ext. rewrite elem_of_add. tauto.
Qed.

Lemma contains_remove_eq tok cl : contains tok (remove tok cl) = false.
Proof. apply contains_false. rewrite elem_of_remove. tauto. Qed.

Lemma contains_remove_ne tok u cl :
  u ≠ tok → contains u (remove tok cl) = contains u cl.
Proof.
  intros Hne. apply bool_decide_ext. rewrite elem_of_remove. tauto.
Qed.

Lemma contains_toggle tok cl :
  contains tok (toggle tok cl) = negb (contains tok cl).
Proof.
  unfold toggle. destruct (contains tok cl) eqn:E; simpl.
  - apply contains_remove_eq.
  - apply contains_add_eq.
Qed.

Lemma contains_toggle_ne tok u cl :
  u ≠ tok → contains u (toggle tok cl) = contains u cl.
Proof.
  intros Hne. unfold toggle. destruct (contains tok cl).
  - by apply contains_remove_ne.
  - by apply contains_add_ne.
Qed.

Lemma contains_toggle_force tok b cl :
  contains tok (toggle_force tok b cl) = b.
Proof.
  destruct b; simpl; [apply contains_add_eq | apply contains_remove_eq].
Qed.

Lemma add_present tok cl : contains tok cl = true → add tok cl = cl.
Proof. intros E. unfold add. by rewrite E. Qed.

End classList_facts.

(** ** The store *)

Lemma dom_update f e w e' :
  dom (exec (update f e) w) e' = if decide (e = e') then f (dom w e) else dom w e'.
Proof.
  unfold exec, update; simpl. case_decide as E.
  - subst. apply fn_lookup_insert.
  - by apply fn_lookup_insert_ne.
Qed.

Lemma exec_bind {A B} (m : JS A) (k : A → JS B) w a :
  outcome m w = Normal a → exec (bind m k) w = exec (k a) (exec m w).
Proof. unfold exec, outcome, bind. destruct (m w) as [w' []]; naive_solver. Qed.

Lemma outcome_bind {A B} (m : JS A) (k : A → JS B) w a :
  outcome m w = Normal a → outcome (bind m k) w = outcome (k a) (exec m w).
Proof. unfold exec, outcome, bind. destruct (m w) as [w' []]; naive_solver. Qed.

Lemma exec_bind_throw {A B} (m : JS A) (k : A → JS B) w :
  outcome m w = TypeError → exec (bind m k) w = exec m w.
Proof. unfold exec, outcome, bind. destruct (m w) as [w' []]; naive_solver. Qed.

Lemma outcome_bind_throw {A B} (m : JS A) (k : A → JS B) w :
  outcome m w = TypeError → outcome (bind m k) w = TypeError.
Proof. unfold exec, outcome, bind. destruct (m w) as [w' []]; naive_solver. Qed.

(** A loop whose body always completes normally completes normally. *)
Lemma forEach_normal {A} (f : A → JS unit) l w :
  (∀ x w', outcome (f x) w' = Normal tt) → outcome (forEach f l) w = Normal tt.
Proof.
  intros Hf. revert w. induction l as [|x l IH]; intros w; [done|].
  simpl. rewrite (outcome_bind _ _ _ tt) by apply Hf. apply IH.
Qed.

Lemma exec_forEach_cons {A} (f : A → JS unit) x l w :
  outcome (f x) w = Normal tt →
  exec (forEach f (x :: l)) w = exec (forEach f l) (exec (f x) w).
Proof. intros H. simpl. by rewrite (exec_bind _ _ _ tt). Qed.

(** A loop whose body at [x] only writes node [x], and never throws,
    leaves the nodes outside the list alone. *)
Lemma forEach_frame (f : elem → JS unit) l w e :
  (∀ x w', outcome (f x) w' = Normal tt) →
  (∀ x w' e', e' ≠ x → dom (exec (f x) w') e' = dom w' e') →
  e ∉ l → dom (exec (forEach f l) w) e = dom w e.
Proof.
  intros Hn Hf. revert w. induction l as [|x l IH]; intros w Hnot; [done|].
  apply not_elem_of_cons in Hnot as [Hne Hnot].
  rewrite exec_forEach_cons by apply Hn. rewrite IH by done. by apply Hf.
Qed.

(** ** Category filter *)

Lemma filterStep_normal s x w : outcome (filterStep s x) w = Normal tt.
Proof.
  unfold filterStep, outcome, bind, get; simpl.
  by destruct (shown _ _).
Qed.

Lemma filterStep_dom s x w e :
  dom (exec (filterStep s x) w) e =
  if decide (x = e)
  then set_classes (if shown s (dom w x) then classList.add "active"
                    else classList.remove "active") (dom w x)
  else dom w e.
Proof.
  unfold filterStep, exec, bind, get; simpl.
  destruct (shown _ _); simpl; case_decide as E; subst;
    by rewrite ?fn_lookup_insert, ?fn_lookup_insert_ne by done.
Qed.

Lemma filterStep_attributes s x w e :
  attributes (dom (exec (filterStep s x) w) e) = attributes (dom w e).
Proof.
  rewrite filterStep_dom. case_decide; [subst|done]. by destruct (shown _ _).
Qed.

Lemma filterItems_attributes s l w e :
  attributes (dom (exec (forEach (filterStep s) l) w) e) = attributes (dom w e).
Proof.
  revert w. induction l as [|x l IH]; intros w; [done|].
  rewrite exec_forEach_cons by apply filterStep_normal.
  by rewrite IH, filterStep_attributes.
Qed.

Lemma filterItems_normal s l w : outcome (forEach (filterStep s) l) w = Normal tt.
Proof. apply forEach_normal, filterStep_normal. Qed.

Lemma filterItems_frame s l w e :
  e ∉ l → dom (exec (forEach (filterStep s) l) w) e = dom w e.
Proof.
  apply forEach_frame; [apply filterStep_normal|].
  intros x w' e' Hne. rewrite filterStep_dom. by case_decide.
Qed.

Lemma filterItems_active s l w item :
  item ∈ l →
  classList.contains "active" (classes (dom (exec (forEach (filterStep s) l) w) item))
  = shown s (dom w item).
Proof.
  revert w. induction l as [|x l IH]; intros w Hin; [by apply elem_of_nil in Hin|].
  rewrite exec_forEach_cons by apply filterStep_normal.
  destruct (decide (item ∈ l)) as [Hl|Hl].
  - rewrite IH by done. unfold shown, dataset. by rewrite filterStep_attributes.
  - apply elem_of_cons in Hin as [->|]; [|done].
    rewrite filterItems_frame by done. rewrite filterStep_dom.
    rewrite decide_True by done. simpl.
    destruct (shown s (dom w x)); simpl;
      [apply contains_add_eq | apply contains_remove_eq].
Qed.

Lemma shown_spec s n :
  shown s n = true ↔ s = "all" ∨ dataset "data-category" n = Some s.
Proof.
  unfold shown. rewrite orb_true_iff, !bool_decide_eq_true.
  split; (intros [?|?]; [by left | by right]).
Qed.

(** ** Page navigation *)

Section navigation_facts.
Variables (ls : list elem) (P : string).

Let tf (b : bool) := set_classes (classList.toggle_force "active" b).

Lemma isTarget_attributes n n' :
  attributes n = attributes n' → isTarget P n = isTarget P n'.
Proof. unfold isTarget, dataset. by intros ->. Qed.

Lemma navStep_outcome p i l w :
  ls !! i = Some l → outcome (navStep ls P p i) w = Normal tt.
Proof.
  intros Hl. unfold navStep, outcome, bind, get, deref, update, scrollTo, ret.
  rewrite Hl; simpl. by destruct (isTarget P (dom w p)).
Qed.

Lemma navStep_dom p i l w e :
  ls !! i = Some l → p ≠ l →
  dom (exec (navStep ls P p i) w) e =
  if decide (e = p ∨ e = l) then tf (isTarget P (dom w p)) (dom w e) else dom w e.
Proof.
  intros Hl Hne. unfold navStep, exec, bind, get, deref, update, scrollTo, ret.
  rewrite Hl; simpl.
  assert (dom (set_dom (λ σ, <[l := tf (isTarget P (dom w p)) (σ l)]> σ)
                 (set_dom (λ σ, <[p := tf (isTarget P (dom w p)) (σ p)]> σ) w)) e
          = if decide (e = p ∨ e = l)
            then tf (isTarget P (dom w p)) (dom w e) else dom w e) as Hdom.
  { simpl. destruct (decide (e = l)) as [->|Hel].
    - rewrite fn_lookup_insert, fn_lookup_insert_ne by done.
      rewrite decide_True; [done | by right].
    - rewrite fn_lookup_insert_ne by done.
      destruct (decide (e = p)) as [->|Hep].
      + rewrite fn_lookup_insert. rewrite decide_True; [done | by left].
      + rewrite fn_lookup_insert_ne by done.
        rewrite decide_False; [done | by intros [?|?]]. }
  destruct (isTarget P (dom w p)); simpl; exact Hdom.
Qed.

Lemma navStep_scroll p i l w :
  ls !! i = Some l →
  scrollCalls (exec (navStep ls P p i) w) =
  if isTarget P (dom w p) then (0, 0)%Z :: scrollCalls w else scrollCalls w.
Proof.
  intros Hl. unfold navStep, exec, bind, get, deref, update, scrollTo, ret.
  rewrite Hl; simpl. by destruct (isTarget P (dom w p)).
Qed.

Lemma navStep_attributes p i l w e :
  ls !! i = Some l → p ≠ l →
  attributes (dom (exec (navStep ls P p i) w) e) = attributes (dom w e).
Proof.
  intros Hl Hne. rewrite (navStep_dom _ _ l) by done. by case_decide.
Qed.

Lemma replicate_push {A} (x : A) n l :
  replicate n x ++ x :: l = x :: replicate n x ++ l.
Proof. induction n as [|n IH]; simpl; [done | by rewrite IH]. Qed.

Lemma targets_ext w w' ps :
  (∀ e, attributes (dom w' e) = attributes (dom w e)) →
  targets P w' ps = targets P w ps.
Proof.
  intros H. apply List.filter_ext. intros p. by apply isTarget_attributes.
Qed.

Lemma nav_loop ps : ∀ i w,
  length ls = i + length ps →
  NoDup (ps ++ drop i ls) →
  let run := forEachFrom i (navStep ls P) ps in
  outcome run w = Normal tt
  ∧ (∀ e, attributes (dom (exec run w) e) = attributes (dom w e))
  ∧ (∀ e, e ∉ ps → e ∉ drop i ls → dom (exec run w) e = dom w e)
  ∧ (∀ j p l, ps !! j = Some p → ls !! (i + j) = Some l →
       classList.contains "active" (classes (dom (exec run w) p))
         = isTarget P (dom w p)
       ∧ classList.contains "active" (classes (dom (exec run w) l))
         = isTarget P (dom w p))
  ∧ scrollCalls (exec run w)
    = replicate (length (targets P w ps)) (0, 0)%Z ++ scrollCalls w.
Proof.
  induction ps as [|p ps IH]; intros i w Hlen Hnd run.
  { subst run; simpl. repeat split; done. }
  simpl in Hlen.
  destruct (ls !! i) as [l|] eqn:Hl;
    [|apply lookup_ge_None in Hl; lia].
  rewrite (drop_S _ l) in Hnd by done.
  assert (p ≠ l) as Hpl.
  { apply list.NoDup_cons in Hnd as [Hp _]. intros ->. apply Hp.
    apply elem_of_app. right. by left. }
  assert (Hparts : NoDup (ps ++ drop (S i) ls)
                   ∧ (p ∉ ps) ∧ (p ∉ drop (S i) ls)
                   ∧ (l ∉ ps) ∧ (l ∉ drop (S i) ls)).
  { apply list.NoDup_cons in Hnd as [Hp Hnd].
    apply list.NoDup_app in Hnd as (Hps & Hdisj & Hls).
    apply list.NoDup_cons in Hls as [Hl' Hls].
    rewrite elem_of_app, elem_of_cons in Hp.
    repeat split.
    - apply list.NoDup_app. repeat split; [done| |done].
      intros x Hx Hx'. apply (Hdisj x Hx). by right.
    - tauto.
    - tauto.
    - intros Hin. apply (Hdisj l Hin). by left.
    - done. }
  destruct Hparts as (Hnd' & Hp1 & Hp2 & Hl1 & Hl2).
  set (w1 := exec (navStep ls P p i) w).
  destruct (IH (S i) w1) as (IHo & IHa & IHf & IHt & IHs); [lia | done |].
  assert (Hrun : exec run w = exec (forEachFrom (S i) (navStep ls P) ps) w1).
  { subst run w1. simpl. by rewrite (exec_bind _ _ _ tt)
      by by apply (navStep_outcome _ _ l). }
  assert (Hattr : ∀ e, attributes (dom w1 e) = attributes (dom w e)).
  { intros e. subst w1. by apply (navStep_attributes _ _ l). }
  split; [|rewrite Hrun; repeat split].
  - subst run w1. simpl.
    rewrite (outcome_bind _ _ _ tt) by by apply (navStep_outcome _ _ l).
    exact IHo.
  - intros e. by rewrite IHa, Hattr.
  - intros e He1 He2. apply not_elem_of_cons in He1 as [Hep He1].
    rewrite (drop_S _ l) in He2 by done.
    apply not_elem_of_cons in He2 as [Hel He2].
    rewrite IHf by done. subst w1. rewrite (navStep_dom _ _ l) by done.
    rewrite decide_False; [done | by intros [?|?]].
  - destruct j as [|j]; simpl in H; simplify_eq.
    + rewrite Nat.add_0_r in H0. simplify_eq.
      rewrite IHf by done. subst w1. rewrite (navStep_dom _ _ l) by done.
      rewrite decide_True by by left. simpl. apply contains_toggle_force.
    + destruct (IHt j p0 l0) as [E1 E2]; [done | |].
      { by replace (S i + j) with (i + S j) by lia. }
      rewrite E1. by apply isTarget_attributes.
  - destruct j as [|j]; simpl in H; simplify_eq.
    + rewrite Nat.add_0_r in H0. simplify_eq.
      rewrite IHf by done. subst w1. rewrite (navStep_dom _ _ l) by done.
      rewrite decide_True by by right. simpl. apply contains_toggle_force.
    + destruct (IHt j p0 l0) as [E1 E2]; [done | |].
      { by replace (S i + j) with (i + S j) by lia. }
      rewrite E2. by apply isTarget_attributes.
  - rewrite IHs. rewrite (targets_ext w w1) by done.
    subst w1. rewrite (navStep_scroll _ _ l) by done.
    unfold targets at 2. simpl.
    destruct (isTarget P (dom w p)); simpl; [|done].
    by rewrite replicate_push.
Qed.

End navigation_facts.





(** ** What a handler leaves alone *)

Section respects.
Context (I : World → World → Prop) {HI : PreOrder I}.

Lemma respects_ret {A} (a : A) : respects I (ret a).
Proof. intros w. unfold exec, ret; simpl. reflexivity. Qed.

Lemma respects_pure {A} (f : World → completion A) :
  respects I (λ w, (w, f w)).
Proof. intros w. unfold exec; simpl. reflexivity. Qed.

Lemma respects_deref r : respects I (deref r).
Proof. intros w. unfold exec, deref. destruct r; simpl; reflexivity. Qed.

Lemma respects_get {A} (field : Node → A) e : respects I (get field e).
Proof. apply respects_pure. Qed.

Lemma respects_bind {A B} (m : JS A) (k : A → JS B) :
  respects I m → (∀ a, respects I (k a)) → respects I (bind m k).
Proof.
  intros Hm Hk w. destruct (outcome m w) as [a|] eqn:E.
  - rewrite (exec_bind _ _ _ a) by done. etrans; [apply Hm | apply Hk].
  - rewrite exec_bind_throw by done. apply Hm.
Qed.

Lemma respects_forEach {A} (f : A → JS unit) l :
  (∀ x, respects I (f x)) → respects I (forEach f l).
Proof.
  intros Hf. induction l as [|x l IH]; simpl.
  - apply respects_ret.
  - apply respects_bind; [apply Hf | by intros _].
Qed.

Lemma respects_if {A} (b : bool) (m1 m2 : JS A) :
  respects I m1 → respects I m2 → respects I (if b then m1 else m2).
Proof. by destruct b. Qed.

(** After [deref r] the continuation runs only on the element of [r]. *)
Lemma respects_bind_deref {B} r (k : elem → JS B) :
  (∀ e, r = Some e → respects I (k e)) → respects I (bind (deref r) k).
Proof.
  intros Hk w. destruct r as [e|].
  - by apply (Hk e).
  - unfold exec, bind, deref; simpl. reflexivity.
Qed.

End respects.

Lemma same_obs_preorder {B} (obs : World → B) :
  PreOrder (λ w w', obs w' = obs w).
Proof. split; [by intros w | intros w1 w2 w3 H1 H2; congruence]. Qed.

Section keeps.
Context {B : Type} (obs : World → B).
Local Existing Instance same_obs_preorder.

Lemma keeps_ret {A} (a : A) : keeps obs (ret a).
Proof. apply (respects_ret _). Qed.

Lemma keeps_pure {A} (f : World → completion A) : keeps obs (λ w, (w, f w)).
Proof. apply (respects_pure _). Qed.

Lemma keeps_deref r : keeps obs (deref r).
Proof. apply (respects_deref _). Qed.

Lemma keeps_get {A} (field : Node → A) e : keeps obs (get field e).
Proof. apply (respects_get _). Qed.

Lemma keeps_bind {A C} (m : JS A) (k : A → JS C) :
  keeps obs m → (∀ a, keeps obs (k a)) → keeps obs (bind m k).
Proof. apply (respects_bind _). Qed.

Lemma keeps_bind_deref {C} r (k : elem → JS C) :
  (∀ e, r = Some e → keeps obs (k e)) → keeps obs (bind (deref r) k).
Proof. apply (respects_bind_deref _). Qed.

Lemma keeps_forEach {A} (f : A → JS unit) l :
  (∀ x, keeps obs (f x)) → keeps obs (forEach f l).
Proof. apply (respects_forEach _). Qed.

Lemma keeps_if {A} (b : bool) (m1 m2 : JS A) :
  keeps obs m1 → keeps obs m2 → keeps obs (if b then m1 else m2).
Proof. apply (respects_if _). Qed.

Lemma keeps_update_world f e :
  (∀ w g, obs (set_dom g w) = obs w) → keeps obs (update f e).
Proof. intros H w. unfold exec, update; simpl. apply H. Qed.

End keeps.

Lemma keeps_update_ne {B} (field : Node → B) f e e' :
  e ≠ e' → keeps (λ w, field (dom w e)) (update f e').
Proof. intros Hne w. rewrite dom_update. by rewrite decide_False. Qed.

Lemma keeps_update_field {B} (field : Node → B) f e e' :
  (∀ n, field (f n) = field n) → keeps (λ w, field (dom w e)) (update f e').
Proof. intros Hf w. rewrite dom_update. case_decide; [subst; apply Hf | done]. Qed.

Lemma keeps_dom_writeActiveFilterBtn {B} (obs : (elem → Node) → B) v :
  keeps (λ w, obs (dom w)) (writeActiveFilterBtn v).
Proof. by intros w. Qed.

(** Structural steps of a preservation proof. *)
Ltac keeps_step :=
  lazymatch goal with
  | |- keeps _ (ret _) => apply keeps_ret
  | |- keeps _ (deref _) => apply keeps_deref
  | |- keeps _ (get _ _) => apply keeps_get
  | |- keeps _ readActiveFilterBtn => apply keeps_pure
  | |- keeps _ (bind (deref _) _) => apply keeps_bind_deref; intros ? ?
  | |- keeps _ (bind _ _) => apply keeps_bind; [|intros ?]
  | |- keeps _ (forEach _ _) => apply keeps_forEach; intros ?
  | |- keeps _ (if _ then _ else _) => apply keeps_if
  | |- keeps _ (update _ _) => apply keeps_update_field; done
  | |- keeps _ (writeActiveFilterBtn _) =>
      apply (keeps_dom_writeActiveFilterBtn (λ σ, _ (σ _)))
  end.

Lemma keeps_toggleElementActive_ne {B} (field : Node → B) r e :
  r ≠ Some e → keeps (λ w, field (dom w e)) (toggleElementActive r).
Proof.
  intros Hne. unfold toggleElementActive.
  apply keeps_bind_deref. intros e' ->.
  apply keeps_update_ne. congruence.
Qed.

Lemma keeps_filterByCategory_ne {B} (field : Node → B) R s e :
  e ∉ Filter.filterItems (filter R) →
  keeps (λ w, field (dom w e)) (filterByCategory R s).
Proof.
  intros Hnot w. unfold filterByCategory. by rewrite filterItems_frame.
Qed.

Lemma keeps_filterByCategory_field {B} (field : Node → B) R s e :
  (∀ f n, field (set_classes f n) = field n) →
  keeps (λ w, field (dom w e)) (filterByCategory R s).
Proof.
  intros Hf. unfold filterByCategory, filterStep. repeat keeps_step.
Qed.

(** ** Running a handler statement by statement *)

Lemma exec_bind_get {A B} (field : Node → A) e (k : A → JS B) w :
  exec (bind (get field e) k) w = exec (k (field (dom w e))) w.
Proof. reflexivity. Qed.

Lemma outcome_bind_get {A B} (field : Node → A) e (k : A → JS B) w :
  outcome (bind (get field e) k) w = outcome (k (field (dom w e))) w.
Proof. reflexivity. Qed.

Lemma exec_bind_deref {B} e (k : elem → JS B) w :
  exec (bind (deref (Some e)) k) w = exec (k e) w.
Proof. reflexivity. Qed.

Lemma outcome_bind_deref {B} e (k : elem → JS B) w :
  outcome (bind (deref (Some e)) k) w = outcome (k e) w.
Proof. reflexivity. Qed.

Lemma exec_bind_null {B} (k : elem → JS B) w : exec (bind (deref None) k) w = w.
Proof. reflexivity. Qed.

Lemma outcome_bind_null {B} (k : elem → JS B) w :
  outcome (bind (deref None) k) w = TypeError.
Proof. reflexivity. Qed.

Lemma exec_bind_update {B} f e (k : unit → JS B) w :
  exec (bind (update f e) k) w = exec (k tt) (exec (update f e) w).
Proof. reflexivity. Qed.

Lemma outcome_bind_update {B} f e (k : unit → JS B) w :
  outcome (bind (update f e) k) w = outcome (k tt) (exec (update f e) w).
Proof. reflexivity. Qed.

Lemma exec_bind_filterByCategory {B} R s (k : unit → JS B) w :
  exec (bind (filterByCategory R s) k) w
  = exec (k tt) (exec (filterByCategory R s) w).
Proof. apply exec_bind, filterItems_normal. Qed.

Lemma outcome_bind_filterByCategory {B} R s (k : unit → JS B) w :
  outcome (bind (filterByCategory R s) k) w
  = outcome (k tt) (exec (filterByCategory R s) w).
Proof. apply outcome_bind, filterItems_normal. Qed.

Lemma exec_bind_readActiveFilterBtn {B} (k : option elem → JS B) w :
  exec (bind readActiveFilterBtn k) w = exec (k (activeFilterBtn w)) w.
Proof. reflexivity. Qed.

Lemma outcome_bind_readActiveFilterBtn {B} (k : option elem → JS B) w :
  outcome (bind readActiveFilterBtn k) w = outcome (k (activeFilterBtn w)) w.
Proof. reflexivity. Qed.

Lemma exec_bind_toggleElementActive {B} e (k : unit → JS B) w :
  exec (bind (toggleElementActive (Some e)) k) w
  = exec (k tt) (exec (update (set_classes (classList.toggle "active")) e) w).
Proof. reflexivity. Qed.

Lemma outcome_bind_toggleElementActive {B} e (k : unit → JS B) w :
  outcome (bind (toggleElementActive (Some e)) k) w
  = outcome (k tt) (exec (update (set_classes (classList.toggle "active")) e) w).
Proof. reflexivity. Qed.

Ltac js_run :=
  repeat first
    [ rewrite exec_bind_get | rewrite outcome_bind_get
    | rewrite exec_bind_deref | rewrite outcome_bind_deref
    | rewrite exec_bind_null | rewrite outcome_bind_null
    | rewrite exec_bind_update | rewrite outcome_bind_update
    | rewrite exec_bind_filterByCategory | rewrite outcome_bind_filterByCategory
    | rewrite exec_bind_toggleElementActive
    | rewrite outcome_bind_toggleElementActive
    | rewrite exec_bind_readActiveFilterBtn
    | rewrite outcome_bind_readActiveFilterBtn ].

Lemma keeps_activeFilterBtn_update f e : keeps activeFilterBtn (update f e).
Proof. by apply keeps_update_world. Qed.

Lemma keeps_activeFilterBtn_filterByCategory R s :
  keeps activeFilterBtn (filterByCategory R s).
Proof.
  unfold filterByCategory, filterStep.
  repeat first [keeps_step | apply keeps_activeFilterBtn_update].
Qed.

(** ** What is shown after a selection *)

(** C1. After [filterByCategory] has run with the selected string [s],
    which it always does without throwing, a filter item carries the
    "active" marker if and only if [s] is the literal "all" or [s] equals
    the item's category attribute; so selecting "all" marks every item.
    The same holds after a click on a dropdown option, with [s] the
    option's text lower-cased, when the dropdown and its label exist. *)
Theorem filterByCategory_marks_exactly R s w item :
  item ∈ Filter.filterItems (filter R) →
  let w' := exec (filterByCategory R s) w in
  outcome (filterByCategory R s) w = Normal tt
  ∧ (isActive w' item = true
     ↔ s = "all" ∨ dataset "data-category" (dom w item) = Some s)
  ∧ dataset "data-category" (dom w' item) = dataset "data-category" (dom w item)
  ∧ (s = "all" → isActive w' item = true)
  ∧ (∀ this sv sel,
       Filter.selectValue (filter R) = Some sv →
       Filter.select (filter R) = Some sel →
       let t := toLowerCase (innerText (dom w this)) in
       outcome (selectItem_onclick R this) w = Normal tt
       ∧ (isActive (exec (selectItem_onclick R this) w) item = true
          ↔ t = "all" ∨ dataset "data-category" (dom w item) = Some t)).
Proof.
  intros Hin w'. subst w'. unfold isActive, filterByCategory.
  split; [apply filterItems_normal|].
  rewrite filterItems_active by done. rewrite shown_spec.
  split; [done|]. split; [|split].
  - unfold dataset. by rewrite filterItems_attributes.
  - intros ->. by left.
  - intros this sv sel Hsv Hsel. unfold selectItem_onclick.
    rewrite Hsv, Hsel. js_run. split; [apply filterItems_normal|].
    unfold filterByCategory. rewrite filterItems_active by done.
    rewrite shown_spec. unfold dataset.
    by rewrite !(keeps_update_field attributes).
Qed.

Lemma filterByCategory_marks_exactly_witness :
  19 ∈ Filter.filterItems (filter sample)
  ∧ (isActive (exec (filterByCategory sample "web design") samplePage) 19 = true
     ↔ "web design" = "all"
       ∨ dataset "data-category" (dom samplePage 19) = Some "web design").
Proof.
  assert (Hin : 19 ∈ Filter.filterItems (filter sample)) by by_compute.
  split; [exact Hin|].
  exact (proj1 (proj2
    (filterByCategory_marks_exactly sample "web design" samplePage 19 Hin))).
Defined.

(** The scenario of three items with categories web, mobile, web:
    selecting "web" shows the first and the third, "all" shows the three. *)
Example filter_scenario :
  let page := set_dom (λ σ,
                <[19 := set_attributes <["data-category" := "web"]> (σ 19)]>
                (<[20 := set_attributes <["data-category" := "mobile"]> (σ 20)]>
                 (<[21 := set_attributes <["data-category" := "web"]> (σ 21)]> σ)))
              samplePage in
  map (isActive (exec (filterByCategory sample "web") page)) [19; 20; 21]
    = [true; false; true]
  ∧ map (isActive (exec (filterByCategory sample "all") page)) [19; 20; 21]
    = [true; true; true].
Proof. split; vm_compute; reflexivity. Qed.

(** ** The two filter surfaces *)

(** The state in which the tail of the filter-button listener runs. *)
Lemma filterBtn_onclick_exec R this w sv a :
  Filter.selectValue (filter R) = Some sv →
  activeFilterBtn w = Some a →
  let w1 := exec (update (set_innerText (innerText (dom w this))) sv) w in
  let w2 := exec (filterByCategory R (toLowerCase (innerText (dom w this)))) w1 in
  let w3 := exec (update (set_classes (classList.remove "active")) a) w2 in
  let w4 := exec (update (set_classes (classList.add "active")) this) w3 in
  outcome (filterBtn_onclick R this) w = Normal tt
  ∧ exec (filterBtn_onclick R this) w = set_activeFilterBtn (Some this) w4.
Proof.
  intros Hsv Ha w1 w2 w3 w4. unfold filterBtn_onclick. rewrite Hsv.
  assert (activeFilterBtn w2 = Some a) as Ha2.
  { subst w2 w1. rewrite keeps_activeFilterBtn_filterByCategory.
    by rewrite keeps_activeFilterBtn_update. }
  js_run. fold w1 w2. rewrite Ha2. js_run. done.
Qed.

(** The highlight of any element outside the filter items after a click on
    the button [this], when [a] was the tracked button. *)
Lemma filterBtn_onclick_highlight R this w sv a x :
  Filter.selectValue (filter R) = Some sv →
  activeFilterBtn w = Some a →
  x = this ∨ x = a ∨ x ∉ Filter.filterItems (filter R) →
  isActive (exec (filterBtn_onclick R this) w) x
  = if decide (x = this) then true
    else if decide (x = a) then false
    else isActive w x.
Proof.
  intros Hsv Ha Hx.
  destruct (filterBtn_onclick_exec R this w sv a Hsv Ha) as [_ ->].
  unfold isActive. change (dom (set_activeFilterBtn ?v ?w)) with (dom w).
  rewrite !dom_update.
  destruct (decide (x = this)) as [->|Hne].
  { rewrite decide_True by done. simpl. apply contains_add_eq. }
  rewrite (decide_False (P := this = x)) by done.
  destruct (decide (x = a)) as [->|Hna].
  { rewrite decide_True by done. simpl. apply contains_remove_eq. }
  rewrite (decide_False (P := a = x)) by done.
  destruct Hx as [?|[?|Hx]]; [done | done |].
  rewrite (keeps_filterByCategory_ne classes) by done.
  rewrite dom_update. case_decide; by subst.
Qed.

(** C3 as the code has it. A click on a dropdown option leaves the
    class list, hence the highlight, of every filter button as it was
    (the buttons being elements other than the dropdown and the filter
    items); a click on a filter button, however, writes the button's text
    into the dropdown's label. *)
Theorem filter_surfaces_coupling R this w :
  (∀ b, b ∈ Filter.filterBtns (filter R) →
        Filter.select (filter R) ≠ Some b →
        b ∉ Filter.filterItems (filter R) →
        classes (dom (exec (selectItem_onclick R this) w) b) = classes (dom w b))
  ∧ (∀ sv, Filter.selectValue (filter R) = Some sv →
        innerText (dom (exec (filterBtn_onclick R this) w) sv)
        = innerText (dom w this)).
Proof.
  split.
  - intros b _ Hsel Hitems.
    assert (keeps (λ w, classes (dom w b)) (selectItem_onclick R this)) as K.
    { unfold selectItem_onclick.
      repeat first
        [ apply keeps_toggleElementActive_ne; done
        | apply keeps_filterByCategory_ne; done
        | keeps_step ]. }
    apply K.
  - intros sv Hsv. unfold filterBtn_onclick. rewrite Hsv.
    rewrite !exec_bind_get, exec_bind_deref, exec_bind_update.
    set (w1 := exec (update _ sv) w).
    assert (∀ m : JS unit, keeps (λ w, innerText (dom w sv)) m →
              innerText (dom (exec m w1) sv) = innerText (dom w this)) as Hk.
    { intros m K. rewrite K. subst w1. rewrite dom_update.
      by rewrite decide_True. }
    apply Hk.
    repeat first [ apply keeps_filterByCategory_field; done | keeps_step ].
Qed.

Lemma filter_surfaces_coupling_witness :
  17 ∈ Filter.filterBtns (filter sample)
  ∧ Filter.select (filter sample) ≠ Some 17
  ∧ (17 ∉ Filter.filterItems (filter sample))
  ∧ Filter.selectValue (filter sample) = Some 15
  ∧ classes (dom (exec (selectItem_onclick sample 14) samplePage) 17)
    = classes (dom samplePage 17)
  ∧ innerText (dom (exec (filterBtn_onclick sample 17) samplePage) 15)
    = innerText (dom samplePage 17).
Proof.
  assert (H1 : 17 ∈ Filter.filterBtns (filter sample)) by by_compute.
  assert (H2 : Filter.select (filter sample) ≠ Some 17) by by_compute.
  assert (H3 : 17 ∉ Filter.filterItems (filter sample)) by by_compute.
  assert (H4 : Filter.selectValue (filter sample) = Some 15)
    by (vm_compute; reflexivity).
  split; [exact H1|]. split; [exact H2|]. split; [exact H3|].
  split; [exact H4|]. split.
  - exact (proj1 (filter_surfaces_coupling sample 14 samplePage) 17 H1 H2 H3).
  - exact (proj2 (filter_surfaces_coupling sample 17 samplePage) 15 H4).
Defined.

(** C3, counterexample: on the sample page a click on the filter button
    "Web design" changes the text of the dropdown's label. *)
Lemma filterBtn_onclick_rewrites_label :
  17 ∈ Filter.filterBtns (filter sample)
  ∧ Filter.selectValue (filter sample) = Some 15
  ∧ innerText (dom (exec (filterBtn_onclick sample 17) samplePage) 15)
    ≠ innerText (dom samplePage 15).
Proof.
  split; [by_compute|]. split; [vm_compute; reflexivity|].
  vm_compute. discriminate.
Qed.

(** ** The highlighted filter button *)

Section highlight.
Variables (R : Registry) (sv : elem).
Hypothesis Hsv : Filter.selectValue (filter R) = Some sv.
Hypothesis Hdisjoint :
  Forall (λ b, b ∉ Filter.filterItems (filter R)) (Filter.filterBtns (filter R)).

Lemma tracks_click w a b :
  tracks R w a →
  outcome (filterBtn_onclick R b) w = Normal tt
  ∧ tracks R (exec (filterBtn_onclick R b) w) b.
Proof.
  intros [Ha Hall].
  destruct (filterBtn_onclick_exec R b w sv a Hsv Ha) as [Ho He].
  split; [done|]. split; [by rewrite He|].
  rewrite list.Forall_forall in Hall, Hdisjoint.
  apply list.Forall_forall. intros x Hx.
  rewrite (filterBtn_onclick_highlight R b w sv a) by auto.
  destruct (decide (x = b)) as [->|Hxb]; [done|].
  destruct (decide (x = a)) as [->|Hxa]; [split; [done | by intros ->]|].
  rewrite (Hall x Hx). split; [done | by intros ->].
Qed.

Lemma tracks_events bs : ∀ w a,
  tracks R w a →
  allNormal (map (filterBtn_onclick R) bs) w
  ∧ tracks R (events (map (filterBtn_onclick R) bs) w)
             (default a (list.last bs)).
Proof.
  induction bs as [|b bs IH]; intros w a Hinv; [done|].
  destruct (tracks_click w a b Hinv) as [Ho Hinv'].
  destruct (IH _ _ Hinv') as [Hn Ht].
  split; [done|].
  replace (default a (list.last (b :: bs))) with (default b (list.last bs));
    [exact Ht|].
  rewrite last_cons. by destruct (list.last bs).
Qed.

End highlight.

(** C4. Let the dropdown's label exist and the filter buttons be elements
    other than the filter items. If the tracked button is the first one
    and, among the filter buttons, the first one is the highlighted one,
    then after any non-empty series of clicks on filter buttons, each of
    which completes, a filter button is highlighted exactly when it is
    the button clicked last, and that button is the tracked one. Each
    click leaves the clicked button highlighted and the button tracked
    before it, if another one, not highlighted. *)
Theorem filterBtn_highlight_invariant R w bs :
  let btns := Filter.filterBtns (filter R) in
  let w' := events (map (filterBtn_onclick R) bs) w in
  is_Some (Filter.selectValue (filter R)) →
  Forall (λ b, b ∉ Filter.filterItems (filter R)) btns →
  activeFilterBtn w = btns !! 0 →
  Forall (λ b, isActive w b = true ↔ btns !! 0 = Some b) btns →
  bs ≠ [] →
  Forall (λ b, b ∈ btns) bs →
  allNormal (map (filterBtn_onclick R) bs) w
  ∧ (∃ b, list.last bs = Some b ∧ b ∈ btns)
  ∧ Forall (λ b, isActive w' b = true ↔ list.last bs = Some b) btns
  ∧ activeFilterBtn w' = list.last bs
  ∧ (∀ w0 a b, activeFilterBtn w0 = Some a →
       let w1 := exec (filterBtn_onclick R b) w0 in
       outcome (filterBtn_onclick R b) w0 = Normal tt
       ∧ isActive w1 b = true
       ∧ (a ≠ b → isActive w1 a = false)
       ∧ activeFilterBtn w1 = Some b).
Proof.
  intros btns w' [sv Hsv] Hdisj Hact Hinit Hne Hin.
  assert (∃ b, list.last bs = Some b) as [bl Hlast].
  { destruct (list.last bs) eqn:E; [eauto|]. by apply last_None in E. }
  assert (bl ∈ btns) as Hbl.
  { rewrite list.Forall_forall in Hin. apply Hin.
    apply last_Some in Hlast as [l' ->]. apply elem_of_app. right. by left. }
  destruct (btns !! 0) as [a0|] eqn:H0.
  2: { destruct btns; [by apply elem_of_nil in Hbl | done]. }
  assert (tracks R w a0) as Htr.
  { split; [done|]. eapply list.Forall_impl; [exact Hinit|]. simpl.
    intros x ->. split; [by intros [= ->] | by intros ->]. }
  destruct (tracks_events R sv Hsv Hdisj bs w a0 Htr) as [Hn [Ha Hall]].
  rewrite Hlast in Ha, Hall; simpl in Ha, Hall.
  split; [done|]. split; [eauto|]. split; [|split; [by rewrite Hlast|]].
  - rewrite Hlast. eapply list.Forall_impl; [exact Hall|]. simpl.
    intros x Hx. etrans; [exact Hx|].
    split; [by intros -> | by intros [= ->]].
  - intros w0 a b Ha0 w1.
    destruct (filterBtn_onclick_exec R b w0 sv a Hsv Ha0) as [Ho He].
    split; [done|]. subst w1. split; [|split].
    + rewrite (filterBtn_onclick_highlight R b w0 sv a) by auto.
      by rewrite decide_True.
    + intros Hab.
      rewrite (filterBtn_onclick_highlight R b w0 sv a) by auto.
      rewrite decide_False by done. by rewrite decide_True.
    + by rewrite He.
Qed.

Lemma filterBtn_highlight_invariant_witness :
  let R := sample in
  let bs := [17; 18; 17] in
  let btns := Filter.filterBtns (filter R) in
  let w' := events (map (filterBtn_onclick R) bs) samplePage in
  is_Some (Filter.selectValue (filter R))
  ∧ Forall (λ b, b ∉ Filter.filterItems (filter R)) btns
  ∧ activeFilterBtn samplePage = btns !! 0
  ∧ Forall (λ b, isActive samplePage b = true ↔ btns !! 0 = Some b) btns
  ∧ bs ≠ []
  ∧ Forall (λ b, b ∈ btns) bs
  ∧ Forall (λ b, isActive w' b = true ↔ list.last bs = Some b) btns
  ∧ activeFilterBtn w' = list.last bs.
Proof.
  intros R bs btns w'.
  assert (H1 : is_Some (Filter.selectValue (filter R))) by by_compute.
  assert (H2 : Forall (λ b, b ∉ Filter.filterItems (filter R)) btns)
    by by_compute.
  assert (H3 : activeFilterBtn samplePage = btns !! 0)
    by (vm_compute; reflexivity).
  assert (H4 : Forall (λ b, isActive samplePage b = true ↔ btns !! 0 = Some b)
                      btns) by by_compute.
  assert (H5 : bs ≠ []) by discriminate.
  assert (H6 : Forall (λ b, b ∈ btns) bs) by by_compute.
  pose proof (filterBtn_highlight_invariant R samplePage bs H1 H2 H3 H4 H5 H6)
    as (_ & _ & H7 & H8 & _).
  split; [exact H1|]. split; [exact H2|]. split; [exact H3|].
  split; [exact H4|]. split; [exact H5|]. split; [exact H6|].
  split; [exact H7 | exact H8].
Defined.

(** ** Technologies modal *)

Lemma find_pointwise {A} (f g : A → bool) l :
  (∀ x, f x = g x) → List.find f l = List.find g l.
Proof.
  intros H. induction l as [|x l IH]; simpl; [done|]. by rewrite H, IH.
Qed.

Lemma same_markup_refl w : same_markup w w.
Proof. by intros e. Qed.

Lemma same_markup_trans w1 w2 w3 :
  same_markup w1 w2 → same_markup w2 w3 → same_markup w1 w3.
Proof.
  intros H1 H2 e. destruct (H1 e) as [<- <-]. apply H2.
Qed.

Lemma same_markup_update f e w :
  (∀ n, attributes (f n) = attributes n) →
  (∀ n, descendants (f n) = descendants n) →
  same_markup w (exec (update f e) w).
Proof.
  intros Ha Hd x. rewrite dom_update. case_decide; [subst|done].
  by rewrite Ha, Hd.
Qed.

Lemma querySelector_markup this a w w' :
  same_markup w w' →
  querySelector (Attr a) (descendants (dom w' this)) (dom w')
  = querySelector (Attr a) (descendants (dom w this)) (dom w).
Proof.
  intros H. destruct (H this) as [_ <-].
  apply find_pointwise. intros x. simpl. by destruct (H x) as [<- _].
Qed.

(** One assignment of the item listener, when both the source inside the
    item and the target in the modal are found. *)
Lemma copyField_found {A} this a (prop : Node → A) set_prop target w0 w source t :
  same_markup w0 w →
  querySelector (Attr a) (descendants (dom w0 this)) (dom w0) = Some source →
  target = Some t →
  copyField this (Attr a) prop set_prop target w
  = (exec (update (set_prop (prop (dom w source))) t) w, Normal tt).
Proof.
  intros Hm Hq ->. unfold copyField, querySelectorIn, bind; simpl.
  rewrite (querySelector_markup this a w0 w Hm), Hq. reflexivity.
Qed.

Lemma exec_bind_eq {A B} (m : JS A) (k : A → JS B) w w1 a :
  m w = (w1, Normal a) → exec (bind m k) w = exec (k a) w1.
Proof. intros H. unfold exec, bind. by rewrite H. Qed.

Lemma outcome_bind_eq {A B} (m : JS A) (k : A → JS B) w w1 a :
  m w = (w1, Normal a) → outcome (bind m k) w = outcome (k a) w1.
Proof. intros H. unfold outcome, bind. by rewrite H. Qed.

Section modal.
Variables (R : Registry) (this : elem) (w : World).
Variables (avatar title text : elem).   (* the item's three sources *)
Variables (img mt mx c o : elem).       (* the modal's parts and the overlay *)

Let modal := Technologies.modal (technologies R).

Hypothesis Havatar :
  querySelector (Attr "data-technologies-avatar")
                (descendants (dom w this)) (dom w) = Some avatar.
Hypothesis Htitle :
  querySelector (Attr "data-technologies-title")
                (descendants (dom w this)) (dom w) = Some title.
Hypothesis Htext :
  querySelector (Attr "data-technologies-text")
                (descendants (dom w this)) (dom w) = Some text.
Hypothesis Himg : Modal.image modal = Some img.
Hypothesis Hmt : Modal.title modal = Some mt.
Hypothesis Hmx : Modal.text modal = Some mx.
Hypothesis Hc : Modal.container modal = Some c.
Hypothesis Ho : Technologies.overlay (technologies R) = Some o.

Let w1 := exec (update (set_src (src (dom w avatar))) img) w.
Let w2 := exec (update (set_alt (alt (dom w1 avatar))) img) w1.
Let w3 := exec (update (set_innerHTML (innerHTML (dom w2 title))) mt) w2.
Let w4 := exec (update (set_innerHTML (innerHTML (dom w3 text))) mx) w3.

Lemma toggleModal_run v :
  toggleModal R v
  = (exec (update (set_classes (classList.toggle "active")) o)
       (exec (update (set_classes (classList.toggle "active")) c) v),
     Normal tt).
Proof. unfold toggleModal. fold modal. rewrite Hc, Ho. reflexivity. Qed.

Lemma technologiesItem_onclick_run :
  technologiesItem_onclick R this w = toggleModal R w4.
Proof.
  assert (same_markup w w1) as M1 by by apply same_markup_update.
  assert (same_markup w w2) as M2.
  { eapply same_markup_trans; [exact M1 | by apply same_markup_update]. }
  assert (same_markup w w3) as M3.
  { eapply same_markup_trans; [exact M2 | by apply same_markup_update]. }
  unfold technologiesItem_onclick. fold modal.
  unfold bind at 1.
  rewrite (copyField_found this _ src set_src _ w w avatar img
             (same_markup_refl w) Havatar Himg).
  fold w1. unfold bind at 1.
  rewrite (copyField_found this _ alt set_alt _ w w1 avatar img M1 Havatar Himg).
  fold w2. unfold bind at 1.
  rewrite (copyField_found this _ innerHTML set_innerHTML _ w w2 title mt
             M2 Htitle Hmt).
  fold w3. unfold bind at 1.
  rewrite (copyField_found this _ innerHTML set_innerHTML _ w w3 text mx
             M3 Htext Hmx).
  reflexivity.
Qed.

(** The content of the modal after a click on the item. *)
Lemma technologiesItem_onclick_content :
  let w' := exec (technologiesItem_onclick R this) w in
  outcome (technologiesItem_onclick R this) w = Normal tt
  ∧ src (dom w' img) = src (dom w avatar)
  ∧ alt (dom w' img) = alt (dom w avatar)
  ∧ (mt ≠ mx → innerHTML (dom w' mt) = innerHTML (dom w title))
  ∧ (text ≠ mt → innerHTML (dom w' mx) = innerHTML (dom w text)).
Proof.
  intros w'. subst w'. unfold exec, outcome.
  rewrite technologiesItem_onclick_run, toggleModal_run; simpl fst; simpl snd.
  split; [done|]. subst w4 w3 w2 w1.
  split; [|split; [|split]].
  - rewrite !(keeps_update_field src) by done.
    rewrite dom_update. by rewrite decide_True.
  - rewrite !(keeps_update_field alt) by done.
    rewrite dom_update. rewrite decide_True by done.
    change (alt (set_alt ?v ?n)) with v.
    by rewrite ?(keeps_update_field alt) by done.
  - intros Hne. rewrite !(keeps_update_field innerHTML) by done.
    rewrite (keeps_update_ne innerHTML) by done.
    rewrite dom_update. rewrite decide_True by done.
    change (innerHTML (set_innerHTML ?v ?n)) with v.
    by rewrite ?(keeps_update_field innerHTML) by done.
  - intros Hne. rewrite !(keeps_update_field innerHTML) by done.
    rewrite dom_update. rewrite decide_True by done.
    change (innerHTML (set_innerHTML ?v ?n)) with v.
    rewrite (keeps_update_ne innerHTML) by done.
    by rewrite ?(keeps_update_field innerHTML) by done.
Qed.

(** The markers of the container and of the overlay are flipped by the
    item listener and by [toggleModal] alike. *)
Lemma toggleModal_flips v :
  c ≠ o →
  let v' := exec (toggleModal R) v in
  outcome (toggleModal R) v = Normal tt
  ∧ isActive v' c = negb (isActive v c)
  ∧ isActive v' o = negb (isActive v o).
Proof.
  intros Hne v'. subst v'. unfold exec, outcome. rewrite toggleModal_run.
  simpl fst; simpl snd. split; [done|]. unfold isActive.
  rewrite !dom_update.
  rewrite (decide_False (P := o = c)) by done.
  rewrite !decide_True by done. simpl.
  rewrite (decide_False (P := c = o)) by done.
  by rewrite !contains_toggle.
Qed.

Lemma technologiesItem_onclick_flips :
  c ≠ o →
  let w' := exec (technologiesItem_onclick R this) w in
  isActive w' c = negb (isActive w c)
  ∧ isActive w' o = negb (isActive w o).
Proof.
  intros Hne w'. subst w'.
  replace (exec (technologiesItem_onclick R this) w)
    with (exec (toggleModal R) w4)
    by (unfold exec; by rewrite technologiesItem_onclick_run).
  destruct (toggleModal_flips w4 Hne) as (_ & -> & ->).
  unfold isActive. subst w4 w3 w2 w1.
  by rewrite !(keeps_update_field classes).
Qed.

End modal.

Lemma toggleModal_keeps {B} (field : Node → B) R e :
  (∀ f n, field (set_classes f n) = field n) →
  keeps (λ w, field (dom w e)) (toggleModal R).
Proof. intros H. unfold toggleModal. repeat keeps_step. Qed.

(** C5 as the code has it. When the item's avatar, title and text and
    the modal's parts are found (the modal's title and text being two
    nodes, and the item's text not the modal's title), a click on the item
    completes, copies the avatar's src and alt and the title and body
    markup into the modal, and flips the "active" marker of the container
    and of the overlay, which reveals both when neither carried it. A
    click on the close button or on the overlay flips both markers again,
    which hides both when both carried it, and changes no node's src, alt
    or markup. *)
Theorem technologies_modal_toggles R this w avatar title text img mt mx c o :
  let modal := Technologies.modal (technologies R) in
  let w' := exec (technologiesItem_onclick R this) w in
  querySelector (Attr "data-technologies-avatar")
                (descendants (dom w this)) (dom w) = Some avatar →
  querySelector (Attr "data-technologies-title")
                (descendants (dom w this)) (dom w) = Some title →
  querySelector (Attr "data-technologies-text")
                (descendants (dom w this)) (dom w) = Some text →
  Modal.image modal = Some img →
  Modal.title modal = Some mt →
  Modal.text modal = Some mx →
  Modal.container modal = Some c →
  Technologies.overlay (technologies R) = Some o →
  c ≠ o → mt ≠ mx → text ≠ mt →
  (outcome (technologiesItem_onclick R this) w = Normal tt
   ∧ src (dom w' img) = src (dom w avatar)
   ∧ alt (dom w' img) = alt (dom w avatar)
   ∧ innerHTML (dom w' mt) = innerHTML (dom w title)
   ∧ innerHTML (dom w' mx) = innerHTML (dom w text)
   ∧ isActive w' c = negb (isActive w c)
   ∧ isActive w' o = negb (isActive w o)
   ∧ (isActive w c = false → isActive w o = false →
      isActive w' c = true ∧ isActive w' o = true))
  ∧ (∀ close v, close = closeBtn_onclick R ∨ close = overlay_onclick R →
       let v' := exec close v in
       outcome close v = Normal tt
       ∧ isActive v' c = negb (isActive v c)
       ∧ isActive v' o = negb (isActive v o)
       ∧ (isActive v c = true → isActive v o = true →
          isActive v' c = false ∧ isActive v' o = false)
       ∧ ∀ e, src (dom v' e) = src (dom v e)
              ∧ alt (dom v' e) = alt (dom v e)
              ∧ innerHTML (dom v' e) = innerHTML (dom v e)).
Proof.
  intros modal w' Hav Hti Htx Himg Hmt Hmx Hc Ho Hco Hmm Htm.
  destruct (technologiesItem_onclick_content R this w avatar title text
              img mt mx c o Hav Hti Htx Himg Hmt Hmx Hc Ho)
    as (Hn & Hsrc & Halt & Htitle & Htext).
  destruct (technologiesItem_onclick_flips R this w avatar title text
              img mt mx c o Hav Hti Htx Himg Hmt Hmx Hc Ho Hco) as [Fc Fo].
  split.
  - split; [done|]. split; [done|]. split; [done|].
    split; [by apply Htitle|]. split; [by apply Htext|].
    split; [done|]. split; [done|].
    intros Ec Eo. subst w'. by rewrite Fc, Fo, Ec, Eo.
  - intros close v Hclose v'.
    assert (close = toggleModal R) as -> by by destruct Hclose.
    destruct (toggleModal_flips R c o Hc Ho v Hco) as (Hn' & Fc' & Fo').
    split; [done|]. split; [done|]. split; [done|]. split.
    + intros Ec Eo. subst v'. by rewrite Fc', Fo', Ec, Eo.
    + intros e. subst v'.
      by rewrite (toggleModal_keeps src), (toggleModal_keeps alt),
                 (toggleModal_keeps innerHTML).
Qed.

Lemma technologies_modal_toggles_witness :
  let w' := exec (technologiesItem_onclick sample 2) samplePage in
  (src (dom w' 8) = src (dom samplePage 3)
   ∧ innerHTML (dom w' 10) = innerHTML (dom samplePage 5)
   ∧ isActive w' 6 = negb (isActive samplePage 6))
  ∧ isActive (exec (closeBtn_onclick sample) sampleOpen) 6
    = negb (isActive sampleOpen 6).
Proof.
  pose proof (technologies_modal_toggles sample 2 samplePage 3 4 5 8 9 10 6 11
                eq_refl eq_refl eq_refl eq_refl eq_refl eq_refl eq_refl eq_refl
                ltac:(discriminate) ltac:(discriminate) ltac:(discriminate))
    as [(_ & H1 & _ & _ & H2 & H3 & _) H4].
  split; [split; [exact H1 | split; [exact H2 | exact H3]]|].
  exact (proj1 (proj2 (H4 (closeBtn_onclick sample) sampleOpen (or_introl eq_refl)))).
Defined.

(** C5, counterexample: with the modal open, a click on the item takes
    the "active" marker away from the container and the overlay. *)
Lemma technologiesItem_onclick_hides_open_modal :
  2 ∈ Technologies.items (technologies sample)
  ∧ Modal.container (Technologies.modal (technologies sample)) = Some 6
  ∧ Technologies.overlay (technologies sample) = Some 11
  ∧ isActive sampleOpen 6 = true
  ∧ isActive sampleOpen 11 = true
  ∧ outcome (technologiesItem_onclick sample 2) sampleOpen = Normal tt
  ∧ isActive (exec (technologiesItem_onclick sample 2) sampleOpen) 6 = false
  ∧ isActive (exec (technologiesItem_onclick sample 2) sampleOpen) 11 = false.
Proof.
  split; [by_compute|]. repeat split; vm_compute; reflexivity.
Qed.

(** C9. The item listener toggles: when the container and the overlay
    (two elements) both carry "active" and the item is clicked, the
    listener completes, the modal content is overwritten with the item's
    fields, and neither the container nor the overlay carries "active"
    any more. *)
Theorem technologiesItem_onclick_closes_open_modal
    R this w avatar title text img mt mx c o :
  let modal := Technologies.modal (technologies R) in
  let w' := exec (technologiesItem_onclick R this) w in
  querySelector (Attr "data-technologies-avatar")
                (descendants (dom w this)) (dom w) = Some avatar →
  querySelector (Attr "data-technologies-title")
                (descendants (dom w this)) (dom w) = Some title →
  querySelector (Attr "data-technologies-text")
                (descendants (dom w this)) (dom w) = Some text →
  Modal.image modal = Some img →
  Modal.title modal = Some mt →
  Modal.text modal = Some mx →
  Modal.container modal = Some c →
  Technologies.overlay (technologies R) = Some o →
  c ≠ o → mt ≠ mx → text ≠ mt →
  isActive w c = true →
  isActive w o = true →
  outcome (technologiesItem_onclick R this) w = Normal tt
  ∧ src (dom w' img) = src (dom w avatar)
  ∧ alt (dom w' img) = alt (dom w avatar)
  ∧ innerHTML (dom w' mt) = innerHTML (dom w title)
  ∧ innerHTML (dom w' mx) = innerHTML (dom w text)
  ∧ isActive w' c = false
  ∧ isActive w' o = false.
Proof.
  intros modal w' Hav Hti Htx Himg Hmt Hmx Hc Ho Hco Hmm Htm Ec Eo.
  destruct (technologiesItem_onclick_content R this w avatar title text
              img mt mx c o Hav Hti Htx Himg Hmt Hmx Hc Ho)
    as (Hn & Hsrc & Halt & Htitle & Htext).
  destruct (technologiesItem_onclick_flips R this w avatar title text
              img mt mx c o Hav Hti Htx Himg Hmt Hmx Hc Ho Hco) as [Fc Fo].
  split; [done|]. split; [done|]. split; [done|].
  split; [by apply Htitle|]. split; [by apply Htext|].
  subst w'. by rewrite Fc, Fo, Ec, Eo.
Qed.

Lemma technologiesItem_onclick_closes_open_modal_witness :
  let w' := exec (technologiesItem_onclick sample 2) sampleOpen in
  isActive sampleOpen 6 = true
  ∧ isActive sampleOpen 11 = true
  ∧ innerHTML (dom w' 9) = innerHTML (dom sampleOpen 4)
  ∧ isActive w' 6 = false
  ∧ isActive w' 11 = false.
Proof.
  pose proof (technologiesItem_onclick_closes_open_modal
                sample 2 sampleOpen 3 4 5 8 9 10 6 11
                eq_refl eq_refl eq_refl eq_refl eq_refl eq_refl eq_refl eq_refl
                ltac:(discriminate) ltac:(discriminate) ltac:(discriminate)
                eq_refl eq_refl)
    as (_ & _ & _ & H1 & _ & H2 & H3).
  split; [reflexivity|]. split; [reflexivity|].
  split; [exact H1|]. split; [exact H2 | exact H3].
Defined.

(** ** Contact form *)

Lemma forallb_pointwise {A} (f g : A → bool) (l : list A) :
  (∀ x, x ∈ l → f x = g x) → forallb f l = forallb g l.
Proof.
  induction l as [|x l IH]; intros H; simpl; [done|].
  rewrite (H x) by by left. rewrite IH; [done|]. intros y Hy. apply H. by right.
Qed.

(** C6. With the form and the submit control present, the input listener
    completes and sets the control's disabled flag to the negation of the
    form's validity check, whatever the validity of the fields; it changes
    no field's validity, and the check gives the same answer afterwards
    unless the submit control is itself an invalid control of the form. *)
Theorem formInput_oninput_gates_submit R w container btn :
  let w' := exec (formInput_oninput R) w in
  Form.container (form R) = Some container →
  Form.submitBtn (form R) = Some btn →
  outcome (formInput_oninput R) w = Normal tt
  ∧ disabled (dom w' btn) = negb (formValid w container)
  ∧ (∀ e, valid (dom w' e) = valid (dom w e))
  ∧ (btn ∉ elements (dom w container) ∨ valid (dom w btn) = true →
     disabled (dom w' btn) = negb (formValid w' container)).
Proof.
  intros w' Hc Hb.
  assert (w' = exec (update (set_disabled (negb (formValid w container))) btn) w)
    as Hw'.
  { subst w'. unfold formInput_oninput. rewrite Hc, Hb. reflexivity. }
  assert (disabled (dom w' btn) = negb (formValid w container)) as Hd.
  { rewrite Hw', dom_update. by rewrite decide_True. }
  split; [|split; [|split]].
  - unfold formInput_oninput. rewrite Hc, Hb. reflexivity.
  - done.
  - intros e. rewrite Hw'. by rewrite (keeps_update_field valid).
  - intros Hbtn. rewrite Hd. f_equal. unfold formValid.
    replace (elements (dom w' container)) with (elements (dom w container))
      by (rewrite Hw'; by rewrite (keeps_update_field elements)).
    apply forallb_pointwise. intros x Hx.
    destruct (decide (x = btn)) as [->|Hne].
    + destruct Hbtn as [Hnot|Hv]; [done|].
      rewrite Hw'. rewrite (keeps_update_field valid) by done.
      rewrite Hv. by rewrite !orb_true_r.
    + rewrite Hw'. rewrite (keeps_update_ne disabled) by done.
      by rewrite (keeps_update_field valid).
Qed.

Lemma formInput_oninput_gates_submit_witness :
  Form.container (form sample) = Some 22
  ∧ Form.submitBtn (form sample) = Some 25
  ∧ disabled (dom (exec (formInput_oninput sample) samplePage) 25)
    = negb (formValid samplePage 22).
Proof.
  split; [reflexivity|]. split; [reflexivity|].
  exact (proj1 (proj2
    (formInput_oninput_gates_submit sample samplePage 22 25 eq_refl eq_refl))).
Defined.

(** ** Page loader *)

(** Adding "hidden" to a node does not change which node is the loader. *)
Lemma loaderOf_hide e w :
  loaderOf (exec (update (set_classes (classList.add "hidden")) e) w) = loaderOf w.
Proof.
  unfold loaderOf. change (document (exec (update ?f e) w)) with (document w).
  apply find_pointwise. intros x. rewrite dom_update.
  case_decide; [subst|done]. simpl. by apply contains_add_ne.
Qed.

Lemma hideLoaderOnLoad_run w :
  hideLoaderOnLoad w
  = match loaderOf w with
    | Some l => (exec (update (set_classes (classList.add "hidden")) l) w, Normal tt)
    | None => (w, Normal tt)
    end.
Proof.
  unfold hideLoaderOnLoad, bind, documentQuerySelector, loaderOf; simpl.
  by destruct (querySelector _ _ _).
Qed.

Lemma backupTimeout_run w :
  backupTimeout w
  = match loaderOf w with
    | Some l =>
        if hidden w l then (w, Normal tt)
        else (exec (update (set_classes (classList.add "hidden")) l) w, Normal tt)
    | None => (w, Normal tt)
    end.
Proof.
  unfold backupTimeout, bind, documentQuerySelector, loaderOf, hidden, get; simpl.
  destruct (querySelector _ _ _); [|done].
  by destruct (classList.contains "hidden" _).
Qed.

Lemma hidden_hide e w l :
  hidden w l = true ∨ e = l →
  hidden (exec (update (set_classes (classList.add "hidden")) e) w) l = true.
Proof.
  intros H. unfold hidden. rewrite dom_update. case_decide as E.
  - subst. simpl. apply contains_add_eq.
  - by destruct H.
Qed.

(** Either closure leaves the loader the loader, completes, and leaves it
    hidden. *)
Lemma call_hides c w l :
  loaderOf w = Some l →
  outcome (call c) w = Normal tt
  ∧ loaderOf (exec (call c) w) = Some l
  ∧ hidden (exec (call c) w) l = true.
Proof.
  intros Hl. unfold outcome, exec.
  destruct c; simpl; [rewrite hideLoaderOnLoad_run | rewrite backupTimeout_run];
    rewrite Hl.
  - simpl. split; [done|]. split; [by rewrite loaderOf_hide|].
    apply hidden_hide. by right.
  - destruct (hidden w l) eqn:E; simpl; [done|].
    split; [done|]. split; [by rewrite loaderOf_hide|].
    apply hidden_hide. by right.
Qed.

Lemma calls_hide cs : ∀ w l,
  loaderOf w = Some l →
  outcome (forEach call cs) w = Normal tt
  ∧ loaderOf (exec (forEach call cs) w) = Some l
  ∧ (cs ≠ [] → hidden (exec (forEach call cs) w) l = true)
  ∧ (hidden w l = true → hidden (exec (forEach call cs) w) l = true).
Proof.
  induction cs as [|c cs IH]; intros w l Hl; [done|].
  destruct (call_hides c w l Hl) as (Ho & Hl' & Hh).
  destruct (IH _ _ Hl') as (IHo & IHl & _ & IHh).
  rewrite exec_forEach_cons by done. simpl.
  rewrite (outcome_bind _ _ _ tt) by done. auto.
Qed.

Lemma forEach_map {A B} (g : A → B) (f : B → JS unit) l :
  forEach (λ x, f (g x)) l = forEach f (map g l).
Proof. induction l as [|x l IH]; simpl; [done | by rewrite IH]. Qed.

(** When there is no loader, neither closure does anything. *)
Lemma call_absent c w :
  loaderOf w = None → call c w = (w, Normal tt).
Proof.
  intros Hl.
  destruct c; simpl; [rewrite hideLoaderOnLoad_run | rewrite backupTimeout_run];
    by rewrite Hl.
Qed.

(** C7. The DOMContentLoaded listener registers the load listener and a
    timer due 3000 ms later. If the page has a loader, it is hidden once
    the load event has fired, and once the clock has reached the timer's
    due time. The timer's closure changes nothing when the loader is
    already hidden; and when the page has no loader, both closures
    complete without changing anything. *)
Theorem loader_dismissed w0 :
  let w1 := exec loader_onDOMContentLoaded w0 in
  (outcome loader_onDOMContentLoaded w0 = Normal tt
   ∧ loadListeners w1 = loadListeners w0 ++ [HideLoaderOnLoad]
   ∧ timers w1 = timers w0 ++ [(now w0 + 3000, BackupTimeout)]
   ∧ dom w1 = dom w0)
  ∧ (∀ l, loaderOf w0 = Some l →
       outcome fireLoad w1 = Normal tt ∧ hidden (exec fireLoad w1) l = true)
  ∧ (∀ l (t : nat), loaderOf w0 = Some l → (now w0 + 3000 ≤ t)%nat →
       outcome (advanceTo t) w1 = Normal tt
       ∧ hidden (exec (advanceTo t) w1) l = true)
  ∧ (∀ w l, loaderOf w = Some l → hidden w l = true →
       backupTimeout w = (w, Normal tt))
  ∧ (∀ w l, loaderOf w = Some l →
       hidden (exec hideLoaderOnLoad w) l = true
       ∧ hidden (exec backupTimeout w) l = true)
  ∧ (∀ w, loaderOf w = None →
       hideLoaderOnLoad w = (w, Normal tt) ∧ backupTimeout w = (w, Normal tt)).
Proof.
  intros w1.
  assert (loadListeners w1 = loadListeners w0 ++ [HideLoaderOnLoad]) as HL
    by reflexivity.
  assert (timers w1 = timers w0 ++ [(now w0 + 3000, BackupTimeout)]) as HT
    by reflexivity.
  split; [done|]. split; [|split; [|split; [|split]]].
  - intros l Hl.
    assert (loaderOf w1 = Some l) as Hl1 by exact Hl.
    destruct (calls_hide (loadListeners w1) w1 l Hl1) as (Ho & _ & Hh & _).
    split; [exact Ho|]. apply Hh. rewrite HL. by destruct (loadListeners w0).
  - intros l t Hl Ht. unfold advanceTo, outcome, exec.
    rewrite (forEach_map snd call).
    set (due := List.filter _ (timers w1)).
    set (w2 := set_timers _ _).
    assert (loaderOf w2 = Some l) as Hl2 by exact Hl.
    destruct (calls_hide (map snd due) w2 l Hl2) as (Ho & _ & Hh & _).
    split; [exact Ho|]. apply Hh.
    assert ((now w0 + 3000, BackupTimeout) ∈ due) as Hin.
    { subst due. apply list_elem_of_In, List.filter_In. split.
      - apply list_elem_of_In. rewrite HT. apply elem_of_app. right. by left.
      - simpl. by apply Nat.leb_le. }
    intros Hnil. destruct due; [by apply elem_of_nil in Hin | done].
  - intros w l Hl Hh. rewrite backupTimeout_run, Hl. by rewrite Hh.
  - intros w l Hl.
    destruct (call_hides HideLoaderOnLoad w l Hl) as (_ & _ & H1).
    destruct (call_hides BackupTimeout w l Hl) as (_ & _ & H2). done.
  - intros w Hl.
    split; [apply (call_absent HideLoaderOnLoad) | apply (call_absent BackupTimeout)];
      done.
Qed.

Lemma loader_dismissed_witness :
  let w1 := exec loader_onDOMContentLoaded samplePage in
  loaderOf samplePage = Some 30
  ∧ (now samplePage + 3000 ≤ 3000)%nat
  ∧ hidden (exec fireLoad w1) 30 = true
  ∧ hidden (exec (advanceTo 3000) w1) 30 = true.
Proof.
  intros w1.
  assert (H1 : loaderOf samplePage = Some 30) by reflexivity.
  assert (H2 : (now samplePage + 3000 ≤ 3000)%nat) by (vm_compute; lia).
  destruct (loader_dismissed samplePage) as (_ & HL & HT & _).
  split; [exact H1|]. split; [exact H2|]. split.
  - exact (proj2 (HL 30 H1)).
  - exact (proj2 (HT 30 3000 H1 H2)).
Defined.

(** The scenario of a load event at 1000 ms: the loader is hidden then,
    and the timer, when it runs at 3000 ms, leaves the loader as it is. *)
Example loader_scenario :
  let w1 := exec loader_onDOMContentLoaded samplePage in
  let w2 := exec fireLoad (exec (advanceTo 1000) w1) in
  let w3 := exec (advanceTo 3000) w2 in
  hidden (exec (advanceTo 1000) w1) 30 = false
  ∧ hidden w2 30 = true
  ∧ timers w2 = [(3000, BackupTimeout)]
  ∧ dom w3 30 = dom w2 30
  ∧ timers w3 = [].
Proof. repeat split; vm_compute; reflexivity. Qed.

(** ** Scroll animations *)

Lemma revealStep_normal entry w : outcome (revealStep entry) w = Normal tt.
Proof. unfold revealStep. by destruct (isIntersecting entry). Qed.

Lemma revealStep_visible entry w e :
  visible (exec (revealStep entry) w) e
  = visible w e || (isIntersecting entry && bool_decide (target entry = e)).
Proof.
  unfold revealStep, visible. destruct (isIntersecting entry).
  - rewrite andb_true_l, dom_update. case_decide as E.
    + subst. rewrite bool_decide_true by done.
      change (classes (set_classes ?f ?n)) with (f (classes n)).
      rewrite contains_add_eq. by rewrite orb_true_r.
    + rewrite bool_decide_false by done. by rewrite orb_false_r.
  - by rewrite andb_false_l, orb_false_r.
Qed.

(** Apart from "visible", the class list of every element is as before. *)
Lemma revealStep_other_classes entry w e tok :
  tok ≠ "visible" →
  classList.contains tok (classes (dom (exec (revealStep entry) w) e))
  = classList.contains tok (classes (dom w e)).
Proof.
  intros Hne. unfold revealStep. destruct (isIntersecting entry); [|done].
  rewrite dom_update. case_decide; [subst|done]. simpl.
  by apply contains_add_ne.
Qed.

Lemma observer_callback_other_classes entries tok e : ∀ w,
  tok ≠ "visible" →
  classList.contains tok (classes (dom (exec (observer_callback entries) w) e))
  = classList.contains tok (classes (dom w e)).
Proof.
  intros w Hne. revert w. unfold observer_callback.
  induction entries as [|entry entries IH]; intros w; [done|].
  rewrite exec_forEach_cons by apply revealStep_normal.
  by rewrite IH, revealStep_other_classes.
Qed.

Lemma observer_callback_visible entries : ∀ w e,
  visible (exec (observer_callback entries) w) e
  = visible w e
    || existsb (λ entry, isIntersecting entry && bool_decide (target entry = e))
               entries.
Proof.
  unfold observer_callback.
  induction entries as [|entry entries IH]; intros w e.
  - simpl. by rewrite orb_false_r.
  - rewrite exec_forEach_cons by apply revealStep_normal.
    rewrite IH, revealStep_visible. simpl. by rewrite orb_assoc.
Qed.

(** C8. A run of the observer's callback completes and leaves an element
    marked "visible" exactly when it was marked before or the run has an
    entry for it that is intersecting. So the marker is only ever added,
    and only on an intersecting entry; an element once marked stays marked
    through every later run of the callback, also through runs that report
    it as not intersecting. No other class of the element changes. *)
Theorem observer_callback_reveals_once entries w e :
  let w' := exec (observer_callback entries) w in
  outcome (observer_callback entries) w = Normal tt
  ∧ (visible w' e = true ↔
       visible w e = true
       ∨ ∃ entry, entry ∈ entries ∧ target entry = e ∧ isIntersecting entry = true)
  ∧ (visible w e = true → visible w' e = true)
  ∧ (∀ runs, visible w e = true →
       visible (events (map observer_callback runs) w) e = true)
  ∧ (visible w e = true → mkEntry e false ∈ entries → visible w' e = true)
  ∧ (∀ tok, tok ≠ "visible" →
       classList.contains tok (classes (dom w' e))
       = classList.contains tok (classes (dom w e))).
Proof.
  intros w'.
  assert (visible w e = true → visible w' e = true) as Hmono.
  { intros Hv. subst w'. by rewrite observer_callback_visible, Hv. }
  split; [apply forEach_normal, revealStep_normal|].
  split; [|split; [done|split; [|split; [auto|]]]].
  3: { intros tok Hne. by apply observer_callback_other_classes. }
  - subst w'. rewrite observer_callback_visible, orb_true_iff.
    rewrite existsb_exists. split.
    + intros [Hv|(entry & Hin & Hentry)]; [by left|]. right.
      apply andb_true_iff in Hentry as [Hi Ht].
      apply bool_decide_eq_true in Ht. exists entry.
      split; [by apply list_elem_of_In|done].
    + intros [Hv|(entry & Hin & Ht & Hi)]; [by left|]. right.
      exists entry. split; [by apply list_elem_of_In|].
      rewrite Hi. by apply bool_decide_eq_true.
  - intros runs. clear Hmono. clear w'. revert w.
    induction runs as [|r runs IH]; intros w Hv; [done|].
    simpl. apply IH. by rewrite observer_callback_visible, Hv.
Qed.

Lemma observer_callback_reveals_once_witness :
  let w1 := exec (observer_callback [mkEntry 2 true; mkEntry 4 false]) samplePage in
  let w2 := exec (observer_callback [mkEntry 2 false]) w1 in
  visible samplePage 2 = false
  ∧ visible w1 2 = true
  ∧ visible w1 4 = false
  ∧ mkEntry 2 false ∈ [mkEntry 2 false]
  ∧ visible w2 2 = true.
Proof.
  intros w1 w2.
  assert (H1 : visible w1 2 = true) by reflexivity.
  assert (H2 : mkEntry 2 false ∈ [mkEntry 2 false]) by apply list_elem_of_here.
  split; [reflexivity|]. split; [exact H1|]. split; [reflexivity|].
  split; [exact H2|].
  exact (proj1 (proj2 (proj2 (proj2 (proj2
    (observer_callback_reveals_once [mkEntry 2 false] w1 2))))) H1 H2).
Defined.

(** ** Case of the category *)




Lemma shown_attributes s n n' :
  attributes n = attributes n' → shown s n = shown s n'.
Proof. unfold shown, dataset. by intros ->. Qed.


(** The class list of an element other than the clicked and the tracked
    button, after a click on a filter button. *)
Lemma filterBtn_onclick_elsewhere R this w sv a x :
  Filter.selectValue (filter R) = Some sv →
  activeFilterBtn w = Some a →
  x ≠ this → x ≠ a →
  classes (dom (exec (filterBtn_onclick R this) w) x)
  = classes (dom (exec (filterByCategory R (toLowerCase (innerText (dom w this))))
                       (exec (update (set_innerText (innerText (dom w this))) sv) w))
                 x).
Proof.
  intros Hsv Ha Hthis Hxa.
  destruct (filterBtn_onclick_exec R this w sv a Hsv Ha) as [_ ->].
  change (dom (set_activeFilterBtn ?v ?w)) with (dom w).
  by rewrite !(keeps_update_ne classes) by done.
Qed.



(** * Further properties of the handlers *)

(** ** The classes a marker operation leaves alone *)

Lemma remove_idem tok (cl : classList.t) :
  classList.remove tok (classList.remove tok cl) = classList.remove tok cl.
Proof.
  unfold classList.remove, classList.t in *. rewrite list_filter_filter.
  apply list_filter_iff. intros x. tauto.
Qed.

Lemma remove_add tok (cl : classList.t) :
  classList.remove tok (classList.add tok cl) = classList.remove tok cl.
Proof.
  unfold classList.add. destruct (classList.contains tok cl); [done|].
  unfold classList.remove, classList.t in *. rewrite list.filter_app.
  rewrite (list.filter_cons_False _ tok []) by (intros H; by apply H).
  by rewrite list.filter_nil, app_nil_r.
Qed.

Lemma remove_toggle tok (cl : classList.t) :
  classList.remove tok (classList.toggle tok cl) = classList.remove tok cl.
Proof.
  unfold classList.toggle. destruct (classList.contains tok cl).
  - apply remove_idem.
  - apply remove_add.
Qed.


(** Membership of a token is that of the marker's or of the others'. *)
Lemma contains_by_parts tok u (cl cl' : classList.t) :
  classList.contains tok cl' = classList.contains tok cl →
  classList.remove tok cl' = classList.remove tok cl →
  classList.contains u cl' = classList.contains u cl.
Proof.
  intros Htok Hother. destruct (decide (u = tok)) as [->|Hne]; [done|].
  rewrite <- (contains_remove_ne tok u cl'), <- (contains_remove_ne tok u cl) by done.
  by rewrite Hother.
Qed.

(** An operation on the marker [tok] of node [e'] keeps the other classes
    and the content of every node. *)
Lemma keeps_otherClasses tok f e e' :
  (∀ cl, classList.remove tok (f cl) = classList.remove tok cl) →
  keeps (λ w, otherClasses tok (dom w e)) (update (set_classes f) e').
Proof.
  intros Hf w. rewrite dom_update. case_decide; [subst|done].
  unfold otherClasses. apply Hf.
Qed.

Lemma keeps_content f e e' :
  keeps (λ w, content (dom w e)) (update (set_classes f) e').
Proof. by apply keeps_update_field. Qed.

(** ** Toggling *)

Lemma toggleElementActive_run c w :
  toggleElementActive (Some c) w
  = (exec (update (set_classes (classList.toggle "active")) c) w, Normal tt).
Proof. reflexivity. Qed.

(** X1. [toggleElementActive] on a present element completes and flips
    its "active" marker; it keeps the element's other classes in order,
    keeps the content of every node and leaves every other node as it
    is. Two toggles in a row give back, for every node, the membership of
    every class. On a missing element it throws and changes nothing. The
    sidebar button's listener is the toggle of the sidebar container and
    the dropdown's listener the toggle of the dropdown itself. *)
Theorem toggleElementActive_flips w :
  (∀ c,
     let w1 := exec (toggleElementActive (Some c)) w in
     let w2 := exec (toggleElementActive (Some c)) w1 in
     outcome (toggleElementActive (Some c)) w = Normal tt
     ∧ isActive w1 c = negb (isActive w c)
     ∧ (∀ e, otherClasses "active" (dom w1 e) = otherClasses "active" (dom w e)
             ∧ content (dom w1 e) = content (dom w e))
     ∧ (∀ e, e ≠ c → dom w1 e = dom w e)
     ∧ (∀ e tok, classList.contains tok (classes (dom w2 e))
                 = classList.contains tok (classes (dom w e))))
  ∧ toggleElementActive None w = (w, TypeError)
  ∧ (∀ R, sidebarBtn_onclick R = toggleElementActive (Sidebar.container (sidebar R)))
  ∧ (∀ this, select_onclick this = toggleElementActive (Some this)).
Proof.
  split; [|done]. intros c w1 w2.
  assert (∀ v, isActive (exec (toggleElementActive (Some c)) v) c
               = negb (isActive v c)) as Hflip.
  { intros v. unfold isActive, exec. rewrite toggleElementActive_run.
    simpl fst. rewrite dom_update, decide_True by done. apply contains_toggle. }
  assert (∀ v e, otherClasses "active" (dom (exec (toggleElementActive (Some c)) v) e)
                 = otherClasses "active" (dom v e)) as Hother.
  { intros v e. unfold exec. rewrite toggleElementActive_run. simpl fst.
    apply (keeps_otherClasses "active"), remove_toggle. }
  assert (∀ v e, e ≠ c → dom (exec (toggleElementActive (Some c)) v) e = dom v e)
    as Hframe.
  { intros v e Hne. unfold exec. rewrite toggleElementActive_run. simpl fst.
    rewrite dom_update. by rewrite decide_False. }
  split; [done|]. split; [apply Hflip|]. split; [|split; [apply Hframe|]].
  - intros e. split; [apply Hother|]. subst w1.
    unfold exec. rewrite toggleElementActive_run. simpl fst. apply keeps_content.
  - intros e tok. apply (contains_by_parts "active").
    + destruct (decide (e = c)) as [->|Hne].
      * fold (isActive w2 c). fold (isActive w c). subst w2 w1.
        rewrite !Hflip. apply negb_involutive.
      * subst w2 w1. by rewrite !Hframe.
    + fold (otherClasses "active" (dom w2 e)). fold (otherClasses "active" (dom w e)).
      subst w2 w1. by rewrite !Hother.
Qed.

Lemma toggleElementActive_flips_witness :
  let w1 := exec (sidebarBtn_onclick sample) samplePage in
  let w2 := exec (sidebarBtn_onclick sample) w1 in
  Sidebar.container (sidebar sample) = Some 0
  ∧ isActive w1 0 = negb (isActive samplePage 0)
  ∧ classList.contains "sidebar" (classes (dom w2 0))
    = classList.contains "sidebar" (classes (dom samplePage 0)).
Proof.
  intros w1 w2.
  destruct (toggleElementActive_flips samplePage) as [H _].
  destruct (H 0) as (_ & H1 & _ & _ & H2).
  split; [reflexivity|]. split; [exact H1 | exact (H2 0 "sidebar")].
Defined.

(** ** The category filter as a whole *)

Lemma filterByCategory_otherClasses R s e :
  keeps (λ w, otherClasses "active" (dom w e)) (filterByCategory R s).
Proof.
  unfold filterByCategory, filterStep.
  apply keeps_forEach. intros item.
  apply keeps_bind; [apply keeps_get|]. intros b. apply keeps_if.
  - apply keeps_otherClasses, remove_add.
  - apply keeps_otherClasses, remove_idem.
Qed.

Lemma filterByCategory_content R s e :
  keeps (λ w, content (dom w e)) (filterByCategory R s).
Proof. by apply keeps_filterByCategory_field. Qed.



Lemma content_attributes n n' : content n = content n' → attributes n = attributes n'.
Proof. unfold content. congruence. Qed.

(** X3. The last selection wins: filtering by [s1] and then by [s2]
    leaves every node with the classes (as a set) and the content that
    filtering by [s2] alone gives; in particular filtering twice by the
    same string is filtering once. *)
Theorem filterByCategory_last_selection_wins R s1 s2 w e tok :
  let w12 := exec (filterByCategory R s2) (exec (filterByCategory R s1) w) in
  let w2 := exec (filterByCategory R s2) w in
  classList.contains tok (classes (dom w12 e))
  = classList.contains tok (classes (dom w2 e))
  ∧ content (dom w12 e) = content (dom w2 e).
Proof.
  intros w12 w2. subst w12 w2. split.
  - apply (contains_by_parts "active").
    + destruct (decide (e ∈ Filter.filterItems (filter R))) as [Hin|Hnot].
      * unfold filterByCategory. rewrite !filterItems_active by done.
        apply shown_attributes. apply filterItems_attributes.
      * unfold filterByCategory. by rewrite !filterItems_frame.
    + fold (otherClasses "active"
              (dom (exec (filterByCategory R s2) (exec (filterByCategory R s1) w)) e)).
      fold (otherClasses "active" (dom (exec (filterByCategory R s2) w) e)).
      by rewrite !filterByCategory_otherClasses.
  - by rewrite !filterByCategory_content.
Qed.

(** ** The two filter listeners *)

Lemma selectItem_onclick_shows R this w sv sel item :
  Filter.selectValue (filter R) = Some sv →
  Filter.select (filter R) = Some sel →
  item ∈ Filter.filterItems (filter R) →
  isActive (exec (selectItem_onclick R this) w) item
  = shown (toLowerCase (innerText (dom w this))) (dom w item).
Proof.
  intros Hsv Hsel Hin. unfold selectItem_onclick. rewrite Hsv, Hsel. js_run.
  unfold isActive, filterByCategory. rewrite filterItems_active by done.
  apply shown_attributes. by rewrite !(keeps_update_field attributes).
Qed.

Lemma filterBtn_onclick_shows R this w sv a item :
  Filter.selectValue (filter R) = Some sv →
  activeFilterBtn w = Some a →
  item ∈ Filter.filterItems (filter R) →
  item ≠ this → item ≠ a →
  isActive (exec (filterBtn_onclick R this) w) item
  = shown (toLowerCase (innerText (dom w this))) (dom w item).
Proof.
  intros Hsv Ha Hin Hthis Hia. unfold isActive.
  rewrite (filterBtn_onclick_elsewhere R this w sv a) by done.
  unfold filterByCategory. rewrite filterItems_active by done.
  apply shown_attributes. by rewrite (keeps_update_field attributes).
Qed.

(** X4. A click on a dropdown option writes the option's text into the
    label, whatever happens next; with the dropdown present and not a
    filter item, the listener completes, flips the dropdown's "active"
    marker (an open dropdown closes) and leaves the tracked filter button
    and the scroll position alone. *)
Theorem selectItem_onclick_sets_label R this w sv :
  let w' := exec (selectItem_onclick R this) w in
  Filter.selectValue (filter R) = Some sv →
  innerText (dom w' sv) = innerText (dom w this)
  ∧ activeFilterBtn w' = activeFilterBtn w
  ∧ scrollCalls w' = scrollCalls w
  ∧ (∀ sel, Filter.select (filter R) = Some sel →
       sel ∉ Filter.filterItems (filter R) →
       outcome (selectItem_onclick R this) w = Normal tt
       ∧ isActive w' sel = negb (isActive w sel)).
Proof.
  intros w' Hsv. subst w'. unfold selectItem_onclick. rewrite Hsv.
  rewrite !exec_bind_get, exec_bind_deref, exec_bind_update.
  rewrite !outcome_bind_get, outcome_bind_deref, outcome_bind_update.
  set (w1 := exec (update _ sv) w).
  set (rest := bind (toggleElementActive _) _).
  assert (innerText (dom w1 sv) = innerText (dom w this)) as H1.
  { subst w1. rewrite dom_update. by rewrite decide_True. }
  split; [|split; [|split]].
  - rewrite <- H1.
    assert (keeps (λ v, innerText (dom v sv)) rest) as K; [|apply K].
    subst rest. unfold toggleElementActive.
    repeat first [ apply keeps_filterByCategory_field; done | keeps_step ].
  - assert (keeps activeFilterBtn rest) as K; [|by rewrite K].
    subst rest. unfold toggleElementActive.
    repeat first [ apply keeps_activeFilterBtn_filterByCategory
                 | apply keeps_activeFilterBtn_update | keeps_step ].
  - assert (keeps scrollCalls rest) as K; [|by rewrite K].
    subst rest. unfold toggleElementActive, filterByCategory, filterStep.
    repeat first [ apply keeps_update_world; done | keeps_step ].
  - intros sel Hsel Hnot. subst rest. rewrite Hsel. js_run.
    split; [apply filterItems_normal|].
    unfold isActive. rewrite (keeps_filterByCategory_ne classes) by done.
    rewrite dom_update, decide_True by done.
    change (classes (set_classes ?f ?n)) with (f (classes n)).
    rewrite contains_toggle. subst w1. by rewrite (keeps_update_field classes).
Qed.

Lemma selectItem_onclick_sets_label_witness :
  let w' := exec (selectItem_onclick sample 14) samplePage in
  Filter.selectValue (filter sample) = Some 15
  ∧ Filter.select (filter sample) = Some 12
  ∧ (12 ∉ Filter.filterItems (filter sample))
  ∧ innerText (dom w' 15) = innerText (dom samplePage 14)
  ∧ isActive w' 12 = negb (isActive samplePage 12).
Proof.
  intros w'.
  assert (H1 : Filter.selectValue (filter sample) = Some 15) by reflexivity.
  assert (H2 : Filter.select (filter sample) = Some 12) by reflexivity.
  assert (H3 : 12 ∉ Filter.filterItems (filter sample)) by by_compute.
  destruct (selectItem_onclick_sets_label sample 14 samplePage 15 H1)
    as (H4 & _ & _ & H5).
  split; [exact H1|]. split; [exact H2|]. split; [exact H3|].
  split; [exact H4 | exact (proj2 (H5 12 H2 H3))].
Defined.

(** X5. Without the label element (the lookup of [data-selecct-value]
    finds nothing), a click on a dropdown option and a click on a filter
    button both throw before anything is written, so after any series of
    such clicks the page is as it was: no item is filtered, no button
    highlighted, the dropdown neither opened nor closed. *)
Theorem filter_listeners_need_label R w clicks :
  Filter.selectValue (filter R) = None →
  (∀ this, selectItem_onclick R this w = (w, TypeError)
           ∧ filterBtn_onclick R this w = (w, TypeError))
  ∧ events (map (filterClick R) clicks) w = w.
Proof.
  intros Hsv.
  assert (∀ this v, selectItem_onclick R this v = (v, TypeError)
                    ∧ filterBtn_onclick R this v = (v, TypeError)) as H.
  { intros this v. unfold selectItem_onclick, filterBtn_onclick.
    rewrite Hsv. split; reflexivity. }
  split; [intros this; apply H|].
  revert w. induction clicks as [|[[] e] clicks IH]; intros w; [done| |];
    simpl; unfold filterClick, exec; simpl fst; simpl snd;
    [rewrite (proj1 (H e w)) | rewrite (proj2 (H e w))]; apply IH.
Qed.

(** X6. The two surfaces filter alike: when a dropdown option and a
    filter button have texts that agree up to case, a click on either
    leaves each filter item (other than the button itself and the tracked
    button) with the same "active" marker. *)
Theorem filter_surfaces_same_items R option button w sv sel a item :
  Filter.selectValue (filter R) = Some sv →
  Filter.select (filter R) = Some sel →
  activeFilterBtn w = Some a →
  item ∈ Filter.filterItems (filter R) →
  item ≠ button → item ≠ a →
  toLowerCase (innerText (dom w option)) = toLowerCase (innerText (dom w button)) →
  isActive (exec (selectItem_onclick R option) w) item
  = isActive (exec (filterBtn_onclick R button) w) item.
Proof.
  intros Hsv Hsel Ha Hin Hb Hia Htext.
  rewrite (selectItem_onclick_shows R option w sv sel) by done.
  rewrite (filterBtn_onclick_shows R button w sv a) by done.
  by rewrite Htext.
Qed.

Lemma filter_listeners_need_label_witness :
  let R := DOMElements sampleNoLabel in
  Filter.selectValue (filter R) = None
  ∧ 17 ∈ Filter.filterBtns (filter R)
  ∧ filterBtn_onclick R 17 sampleNoLabel = (sampleNoLabel, TypeError).
Proof.
  intros R.
  assert (H : Filter.selectValue (filter R) = None) by reflexivity.
  split; [exact H|]. split; [by_compute|].
  exact (proj2 (proj1 (filter_listeners_need_label R sampleNoLabel [] H) 17)).
Defined.

Lemma filter_surfaces_same_items_witness :
  Filter.selectValue (filter sample) = Some 15
  ∧ Filter.select (filter sample) = Some 12
  ∧ activeFilterBtn samplePage = Some 16
  ∧ 19 ∈ Filter.filterItems (filter sample)
  ∧ toLowerCase (innerText (dom samplePage 14))
    = toLowerCase (innerText (dom samplePage 17))
  ∧ isActive (exec (selectItem_onclick sample 14) samplePage) 19
    = isActive (exec (filterBtn_onclick sample 17) samplePage) 19.
Proof.
  assert (H1 : Filter.selectValue (filter sample) = Some 15) by reflexivity.
  assert (H2 : Filter.select (filter sample) = Some 12) by reflexivity.
  assert (H3 : activeFilterBtn samplePage = Some 16) by reflexivity.
  assert (H4 : 19 ∈ Filter.filterItems (filter sample)) by by_compute.
  assert (H5 : toLowerCase (innerText (dom samplePage 14))
               = toLowerCase (innerText (dom samplePage 17))) by reflexivity.
  split; [exact H1|]. split; [exact H2|]. split; [exact H3|].
  split; [exact H4|]. split; [exact H5|].
  exact (filter_surfaces_same_items sample 14 17 samplePage 15 12 16 19
           H1 H2 H3 H4 ltac:(discriminate) ltac:(discriminate) H5).
Defined.

(** ** Navigation as a whole *)

Lemma keeps_forEachFrom {A B} (obs : World → B) (f : A → nat → JS unit) l : ∀ i,
  (∀ x j, x ∈ l → keeps obs (f x j)) → keeps obs (forEachFrom i f l).
Proof.
  induction l as [|x l IH]; intros i Hf; simpl.
  - apply keeps_ret.
  - apply keeps_bind; [apply Hf; by left|]. intros _. apply IH.
    intros y j Hy. apply Hf. by right.
Qed.

(** What the loop body writes is class lists, of the page and of a link. *)
Lemma navStep_keeps {B} (obs : World → B) ls P page i :
  (∀ b, keeps obs (update (set_classes (classList.toggle_force "active" b)) page)) →
  (∀ b link, link ∈ ls →
     keeps obs (update (set_classes (classList.toggle_force "active" b)) link)) →
  (∀ w g, obs (set_scrollCalls g w) = obs w) →
  keeps obs (navStep ls P page i).
Proof.
  intros Hpage Hlink Hscroll. unfold navStep.
  apply keeps_bind; [apply keeps_get|]. intros b.
  apply keeps_bind; [apply Hpage|]. intros _.
  apply keeps_bind.
  - apply keeps_bind_deref. intros link Hl. apply Hlink.
    apply list_elem_of_lookup. eauto.
  - intros _. apply keeps_if; [|apply keeps_ret].
    intros w. unfold exec, scrollTo; simpl. apply Hscroll.
Qed.

Lemma navLink_onclick_keeps {B} (obs : World → B) R this :
  (∀ b e, e ∈ Navigation.pages (navigation R) ++ Navigation.links (navigation R) →
     keeps obs (update (set_classes (classList.toggle_force "active" b)) e)) →
  (∀ w g, obs (set_scrollCalls g w) = obs w) →
  keeps obs (navLink_onclick R this).
Proof.
  intros Hupd Hscroll. unfold navLink_onclick.
  apply keeps_bind; [apply keeps_get|]. intros html.
  apply keeps_forEachFrom. intros page j Hpage. apply navStep_keeps.
  - intros b. apply Hupd. apply elem_of_app. by left.
  - intros b link Hl. apply Hupd. apply elem_of_app. by right.
  - exact Hscroll.
Qed.



(** The markers after a click, with links and pages in step. *)
Lemma navLink_onclick_active R this w i page link :
  length (Navigation.links (navigation R)) = length (Navigation.pages (navigation R)) →
  NoDup (Navigation.pages (navigation R) ++ Navigation.links (navigation R)) →
  Navigation.pages (navigation R) !! i = Some page →
  Navigation.links (navigation R) !! i = Some link →
  let P := toLowerCase (innerHTML (dom w this)) in
  isActive (exec (navLink_onclick R this) w) page = isTarget P (dom w page)
  ∧ isActive (exec (navLink_onclick R this) w) link = isTarget P (dom w page).
Proof.
  intros Hlen Hnd Hp Hl P.
  destruct (nav_loop (Navigation.links (navigation R)) P
              (Navigation.pages (navigation R)) 0 w) as (_ & _ & _ & Ht & _);
    [done | done |].
  unfold isActive, navLink_onclick. rewrite exec_bind_get. by apply (Ht i).
Qed.

(** X8. The last click wins: with links and pages in step and distinct,
    clicking link [a] and then link [b] leaves every page and every link
    with the "active" marker that clicking [b] alone gives; clicking the
    same link twice marks as clicking it once. *)
Theorem navLink_onclick_last_click_wins R a b w e :
  let links := Navigation.links (navigation R) in
  let pages := Navigation.pages (navigation R) in
  length links = length pages →
  NoDup (pages ++ links) →
  e ∈ pages ++ links →
  isActive (exec (navLink_onclick R b) (exec (navLink_onclick R a) w)) e
  = isActive (exec (navLink_onclick R b) w) e.
Proof.
  intros links pages Hlen Hnd He.
  set (wa := exec (navLink_onclick R a) w).
  assert (∀ x, content (dom wa x) = content (dom w x)) as Hc.
  { intros x. subst wa.
    apply (navLink_onclick_keeps (λ v, content (dom v x))); [|done].
    intros c y _. apply keeps_content. }
  assert (toLowerCase (innerHTML (dom wa b)) = toLowerCase (innerHTML (dom w b)))
    as HP.
  { specialize (Hc b). unfold content in Hc. congruence. }
  assert (∀ page, isTarget (toLowerCase (innerHTML (dom wa b))) (dom wa page)
                  = isTarget (toLowerCase (innerHTML (dom w b))) (dom w page))
    as Htarget.
  { intros page. rewrite HP. apply isTarget_attributes.
    by apply content_attributes. }
  assert (∃ i page link, pages !! i = Some page ∧ links !! i = Some link
                         ∧ (e = page ∨ e = link)) as (i & page & link & Hp & Hl & Hor).
  { apply elem_of_app in He as [He|He];
      apply list_elem_of_lookup in He as [i Hi].
    - destruct (links !! i) as [l|] eqn:Hl;
        [|apply lookup_ge_None in Hl; apply lookup_lt_Some in Hi; lia].
      exists i, e, l. auto.
    - destruct (pages !! i) as [p|] eqn:Hp;
        [|apply lookup_ge_None in Hp; apply lookup_lt_Some in Hi; lia].
      exists i, p, e. auto. }
  destruct (navLink_onclick_active R b wa i page link Hlen Hnd Hp Hl) as [E1 E2].
  destruct (navLink_onclick_active R b w i page link Hlen Hnd Hp Hl) as [F1 F2].
  destruct Hor as [->| ->].
  - by rewrite E1, F1, Htarget.
  - by rewrite E2, F2, Htarget.
Qed.

Lemma navLink_onclick_last_click_wins_witness :
  length (Navigation.links (navigation sample))
    = length (Navigation.pages (navigation sample))
  ∧ NoDup (Navigation.pages (navigation sample) ++ Navigation.links (navigation sample))
  ∧ 28 ∈ Navigation.pages (navigation sample) ++ Navigation.links (navigation sample)
  ∧ isActive (exec (navLink_onclick sample 26)
                   (exec (navLink_onclick sample 27) samplePage)) 28
    = isActive (exec (navLink_onclick sample 26) samplePage) 28.
Proof.
  assert (H1 : length (Navigation.links (navigation sample))
               = length (Navigation.pages (navigation sample)))
    by (vm_compute; reflexivity).
  assert (H2 : NoDup (Navigation.pages (navigation sample)
                      ++ Navigation.links (navigation sample))) by by_compute.
  assert (H3 : 28 ∈ Navigation.pages (navigation sample)
                    ++ Navigation.links (navigation sample)) by by_compute.
  split; [exact H1|]. split; [exact H2|]. split; [exact H3|].
  exact (navLink_onclick_last_click_wins sample 27 26 samplePage 28 H1 H2 H3).
Defined.

Lemma forEachFrom_app {A} (f : A → nat → JS unit) l1 l2 : ∀ i w,
  outcome (forEachFrom i f l1) w = Normal tt →
  forEachFrom i f (l1 ++ l2) w
  = forEachFrom (i + length l1) f l2 (exec (forEachFrom i f l1) w).
Proof.
  induction l1 as [|x l1 IH]; intros i w Ho.
  - simpl. by rewrite Nat.add_0_r.
  - simpl in *. unfold outcome, exec, bind in *.
    destruct (f x i w) as [w1 [[]|]]; [|done].
    rewrite IH by done. by replace (i + S (length l1)) with (S i + length l1) by lia.
Qed.

(** The loop body at an index beyond the links: the page is written,
    then the missing link throws. *)
Lemma navStep_no_link ls P page i w :
  ls !! i = None →
  navStep ls P page i w
  = (exec (update (set_classes (classList.toggle_force "active"
                                  (isTarget P (dom w page)))) page) w,
     TypeError).
Proof. intros Hl. unfold navStep, bind, get, deref. by rewrite Hl. Qed.

(** X9. With fewer links than pages, all distinct, the navigation
    listener throws at the first page that has no link: the pages before
    it and their links are marked as usual, with their scrolls; that page
    itself has its marker written, without a scroll; the pages after it
    are left as they are. *)
Theorem navLink_onclick_short_of_links R this w ps1 p ps2 :
  let links := Navigation.links (navigation R) in
  let pages := Navigation.pages (navigation R) in
  let P := toLowerCase (innerHTML (dom w this)) in
  let w' := exec (navLink_onclick R this) w in
  pages = ps1 ++ p :: ps2 →
  length ps1 = length links →
  NoDup (pages ++ links) →
  outcome (navLink_onclick R this) w = TypeError
  ∧ (∀ i page link, ps1 !! i = Some page → links !! i = Some link →
       isActive w' page = isTarget P (dom w page)
       ∧ isActive w' link = isTarget P (dom w page))
  ∧ isActive w' p = isTarget P (dom w p)
  ∧ (∀ q, q ∈ ps2 → dom w' q = dom w q)
  ∧ scrollCalls w'
    = replicate (length (targets P w ps1)) (0, 0)%Z ++ scrollCalls w.
Proof.
  intros links pages P w' Hpages Hlen Hnd.
  assert (Hparts : NoDup (ps1 ++ drop 0 links) ∧ (p ∉ ps1) ∧ (p ∉ links)
                   ∧ (∀ q, q ∈ ps2 → (q ∉ ps1) ∧ (q ∉ links) ∧ q ≠ p)).
  { rewrite Hpages in Hnd. rewrite <- app_assoc in Hnd.
    apply list.NoDup_app in Hnd as (H1 & Hdisj & H2).
    change ((p :: ps2) ++ links) with (p :: (ps2 ++ links)) in *.
    apply list.NoDup_cons in H2 as [Hp2 H3].
    apply list.NoDup_app in H3 as (H4 & Hdisj2 & H5).
    rewrite elem_of_app in Hp2. simpl.
    split; [|split; [|split]].
    - apply list.NoDup_app. split; [done|]. split; [|done].
      intros x Hx Hx'. apply (Hdisj x Hx). right. apply elem_of_app. by right.
    - intros Hin. apply (Hdisj p Hin). by left.
    - tauto.
    - intros q Hq. split; [|split].
      + intros Hin. apply (Hdisj q Hin). right. apply elem_of_app. by left.
      + by apply Hdisj2.
      + intros ->. tauto. }
  destruct Hparts as (Hnd1 & Hp1 & Hpl & Hq).
  destruct (nav_loop links P ps1 0 w) as (Ho & Ha & Hf & Ht & Hs); [lia | done |].
  set (w1 := exec (forEachFrom 0 (navStep links P) ps1) w) in *.
  assert (navLink_onclick R this w
          = (exec (update (set_classes (classList.toggle_force "active"
                                          (isTarget P (dom w1 p)))) p) w1,
             TypeError)) as Hrun.
  { unfold navLink_onclick, bind at 1, get. fold links pages P. rewrite Hpages.
    rewrite forEachFrom_app by done. fold w1. simpl.
    unfold bind at 1. rewrite navStep_no_link; [done|].
    apply lookup_ge_None. lia. }
  assert (isTarget P (dom w1 p) = isTarget P (dom w p)) as Hp
    by (by apply isTarget_attributes).
  assert (∀ x, dom w' x = if decide (p = x)
                          then set_classes (classList.toggle_force "active"
                                              (isTarget P (dom w p))) (dom w1 p)
                          else dom w1 x) as Hdom.
  { intros x. subst w'. unfold exec. rewrite Hrun. simpl fst.
    rewrite dom_update, Hp. done. }
  split; [unfold outcome; by rewrite Hrun|]. split; [|split; [|split]].
  - intros i page link Hi Hl. unfold isActive. rewrite !Hdom.
    assert (page ∈ ps1) as Hin1 by (apply list_elem_of_lookup; eauto).
    assert (link ∈ links) as Hin2 by (apply list_elem_of_lookup; eauto).
    rewrite !decide_False by (intros ->; done).
    by apply (Ht i).
  - unfold isActive. rewrite Hdom, decide_True by done.
    apply contains_toggle_force.
  - intros q Hin. destruct (Hq q Hin) as (Hq1 & Hq2 & Hq3).
    rewrite Hdom, decide_False by done. by apply Hf.
  - subst w'. unfold exec. rewrite Hrun. simpl fst. exact Hs.
Qed.

Lemma navLink_onclick_short_of_links_witness :
  let R := DOMElements sampleOneLink in
  let w' := exec (navLink_onclick R 26) sampleOneLink in
  Navigation.pages (navigation R) = [28] ++ 29 :: []
  ∧ length [28] = length (Navigation.links (navigation R))
  ∧ NoDup (Navigation.pages (navigation R) ++ Navigation.links (navigation R))
  ∧ outcome (navLink_onclick R 26) sampleOneLink = TypeError
  ∧ isActive w' 29 = isTarget "about" (dom sampleOneLink 29).
Proof.
  intros R w'.
  assert (H1 : Navigation.pages (navigation R) = [28] ++ 29 :: [])
    by (vm_compute; reflexivity).
  assert (H2 : length [28] = length (Navigation.links (navigation R)))
    by (vm_compute; reflexivity).
  assert (H3 : NoDup (Navigation.pages (navigation R)
                      ++ Navigation.links (navigation R))) by by_compute.
  destruct (navLink_onclick_short_of_links R 26 sampleOneLink [28] 29 [] H1 H2 H3)
    as (H4 & _ & H5 & _).
  split; [exact H1|]. split; [exact H2|]. split; [exact H3|].
  split; [exact H4 | exact H5].
Defined.

(** ** The modal as a whole *)





Lemma toggleModal_otherClasses R e :
  keeps (λ w, otherClasses "active" (dom w e)) (toggleModal R).
Proof.
  unfold toggleModal.
  apply keeps_bind; [|intros _];
    (apply keeps_bind_deref; intros x _; apply keeps_otherClasses, remove_toggle).
Qed.

Lemma copyField_keeps {A B} (field : Node → B) this s (prop : Node → A)
    set_prop target e :
  (∀ v n, field (set_prop v n) = field n) →
  keeps (λ w, field (dom w e)) (copyField this s prop set_prop target).
Proof.
  intros Hf. unfold copyField, querySelectorIn.
  apply keeps_bind; [apply keeps_pure|]. intros found.
  apply keeps_bind; [apply keeps_deref|]. intros source.
  apply keeps_bind; [apply keeps_get|]. intros v.
  apply keeps_bind; [apply keeps_deref|]. intros t.
  by apply keeps_update_field.
Qed.

Lemma toggleModal_elsewhere {B} (field : Node → B) R e :
  Modal.container (Technologies.modal (technologies R)) ≠ Some e →
  Technologies.overlay (technologies R) ≠ Some e →
  keeps (λ w, field (dom w e)) (toggleModal R).
Proof.
  intros Hc Ho. unfold toggleModal.
  apply keeps_bind; [|intros _];
    (apply keeps_bind_deref; intros x Hx; apply keeps_update_ne; congruence).
Qed.

(** What the item listener does to classes is what [toggleModal] does. *)
Lemma technologiesItem_onclick_classes {B} (obs : classList.t → B) R this e :
  keeps (λ w, obs (classes (dom w e))) (toggleModal R) →
  keeps (λ w, obs (classes (dom w e))) (technologiesItem_onclick R this).
Proof.
  intros Ht. unfold technologiesItem_onclick.
  repeat (apply keeps_bind;
          [apply (copyField_keeps (λ n, obs (classes n))); done | intros _]).
  exact Ht.
Qed.

(** X11. Opening and closing is a round trip on the classes and keeps the
    content: with all parts found (container and overlay two elements,
    the modal's title and text two elements, the item's text not the
    modal's title), a click on the item followed by a click on the close
    button or on the overlay leaves every node with the classes (as a set)
    it had before the item was clicked, while the modal still holds the
    item's src, alt, title markup and body markup. *)
Theorem modal_open_then_close R this w avatar title text img mt mx c o close :
  let modal := Technologies.modal (technologies R) in
  let w1 := exec (technologiesItem_onclick R this) w in
  let w2 := exec close w1 in
  querySelector (Attr "data-technologies-avatar")
                (descendants (dom w this)) (dom w) = Some avatar →
  querySelector (Attr "data-technologies-title")
                (descendants (dom w this)) (dom w) = Some title →
  querySelector (Attr "data-technologies-text")
                (descendants (dom w this)) (dom w) = Some text →
  Modal.image modal = Some img →
  Modal.title modal = Some mt →
  Modal.text modal = Some mx →
  Modal.container modal = Some c →
  Technologies.overlay (technologies R) = Some o →
  c ≠ o → mt ≠ mx → text ≠ mt →
  close = closeBtn_onclick R ∨ close = overlay_onclick R →
  outcome close w1 = Normal tt
  ∧ (∀ e tok, classList.contains tok (classes (dom w2 e))
              = classList.contains tok (classes (dom w e)))
  ∧ src (dom w2 img) = src (dom w avatar)
  ∧ alt (dom w2 img) = alt (dom w avatar)
  ∧ innerHTML (dom w2 mt) = innerHTML (dom w title)
  ∧ innerHTML (dom w2 mx) = innerHTML (dom w text).
Proof.
  intros modal w1 w2 Hav Hti Htx Himg Hmt Hmx Hc Ho Hco Hmm Htm Hclose.
  assert (close = toggleModal R) as -> by by destruct Hclose.
  destruct (technologiesItem_onclick_content R this w avatar title text
              img mt mx c o Hav Hti Htx Himg Hmt Hmx Hc Ho)
    as (Hn & Hsrc & Halt & Htitle & Htext).
  destruct (technologiesItem_onclick_flips R this w avatar title text
              img mt mx c o Hav Hti Htx Himg Hmt Hmx Hc Ho Hco) as [Fc Fo].
  destruct (toggleModal_flips R c o Hc Ho w1 Hco) as (Hn' & Fc' & Fo').
  assert (∀ e, otherClasses "active" (dom w1 e) = otherClasses "active" (dom w e))
    as Hother.
  { intros e. subst w1.
    apply (technologiesItem_onclick_classes (classList.remove "active")).
    apply toggleModal_otherClasses. }
  assert (∀ e, e ≠ c → e ≠ o → isActive w1 e = isActive w e) as Hrest.
  { intros e Hec Heo. subst w1.
    apply (technologiesItem_onclick_classes (classList.contains "active")).
    apply (toggleModal_elsewhere (λ n, classList.contains "active" (classes n)));
      fold modal; congruence. }
  assert (∀ e, e ≠ c → e ≠ o → isActive w2 e = isActive w1 e) as Hrest'.
  { intros e Hec Heo. subst w2.
    apply (toggleModal_elsewhere (λ n, classList.contains "active" (classes n)));
      fold modal; congruence. }
  split; [done|]. split; [|subst w2; split; [|split; [|split]]].
  - intros e tok. apply (contains_by_parts "active").
    + fold (isActive w2 e). fold (isActive w e).
      destruct (decide (e = c)) as [->|Hec].
      { subst w2. rewrite Fc'. subst w1. rewrite Fc. apply negb_involutive. }
      destruct (decide (e = o)) as [->|Heo].
      { subst w2. rewrite Fo'. subst w1. rewrite Fo. apply negb_involutive. }
      by rewrite Hrest', Hrest.
    + fold (otherClasses "active" (dom w2 e)). fold (otherClasses "active" (dom w e)).
      subst w2. by rewrite toggleModal_otherClasses, Hother.
  - by rewrite (toggleModal_keeps src).
  - by rewrite (toggleModal_keeps alt).
  - rewrite (toggleModal_keeps innerHTML) by done. by apply Htitle.
  - rewrite (toggleModal_keeps innerHTML) by done. by apply Htext.
Qed.

Lemma modal_open_then_close_witness :
  let w2 := exec (closeBtn_onclick sample) sampleOpen in
  isActive sampleOpen 6 = true
  ∧ classList.contains "active" (classes (dom w2 6))
    = classList.contains "active" (classes (dom samplePage 6))
  ∧ innerHTML (dom w2 10) = innerHTML (dom samplePage 5).
Proof.
  intros w2.
  destruct (modal_open_then_close sample 2 samplePage 3 4 5 8 9 10 6 11
              (closeBtn_onclick sample)
              eq_refl eq_refl eq_refl eq_refl eq_refl eq_refl eq_refl eq_refl
              ltac:(discriminate) ltac:(discriminate) ltac:(discriminate)
              (or_introl eq_refl))
    as (_ & H1 & _ & _ & _ & H2).
  split; [reflexivity|]. split; [exact (H1 6 "active") | exact H2].
Defined.

(** ** The form listener as a whole *)



(** ** The observer's callback as a whole *)

Lemma forEach_app {A} (f : A → JS unit) l1 l2 w :
  outcome (forEach f l1) w = Normal tt →
  forEach f (l1 ++ l2) w = forEach f l2 (exec (forEach f l1) w).
Proof.
  revert w. induction l1 as [|x l1 IH]; intros w Ho; [done|].
  simpl in *. unfold outcome, exec, bind in *.
  destruct (f x w) as [w1 [[]|]]; [|done]. by apply IH.
Qed.

(** X13. Batching and order do not matter to the observer's callback:
    one run on the entries [l1 ++ l2] is a run on [l1] followed by a run
    on [l2]; runs on two permutations of the same entries leave every
    node with the same classes (as a set); and a second run on the same
    entries changes no membership. *)
Theorem observer_callback_batches l1 l2 w :
  observer_callback (l1 ++ l2) w
  = observer_callback l2 (exec (observer_callback l1) w)
  ∧ (∀ l e tok, l ≡ₚ l1 →
       classList.contains tok (classes (dom (exec (observer_callback l) w) e))
       = classList.contains tok (classes (dom (exec (observer_callback l1) w) e)))
  ∧ (∀ e tok,
       classList.contains tok
         (classes (dom (exec (observer_callback l1) (exec (observer_callback l1) w)) e))
       = classList.contains tok (classes (dom (exec (observer_callback l1) w) e))).
Proof.
  assert (∀ l v e tok,
            classList.contains tok (classes (dom (exec (observer_callback l) v) e))
            = if decide (tok = "visible")
              then visible v e
                   || existsb (λ entry, isIntersecting entry
                                        && bool_decide (target entry = e)) l
              else classList.contains tok (classes (dom v e))) as Hchar.
  { intros l v e tok. case_decide as E.
    - subst. apply observer_callback_visible.
    - by apply observer_callback_other_classes. }
  split; [|split].
  - unfold observer_callback. apply forEach_app, forEach_normal, revealStep_normal.
  - intros l e tok Hperm. rewrite !Hchar. case_decide; [|done]. f_equal.
    apply eq_true_iff_eq. rewrite !existsb_exists.
    split; intros (x & Hx & Hp); exists x; (split; [|done]);
      apply list_elem_of_In; apply list_elem_of_In in Hx.
    + by rewrite <- Hperm.
    + by rewrite Hperm.
  - intros e tok. rewrite !Hchar. case_decide; [|done].
    unfold visible at 1. rewrite Hchar, decide_True by done.
    by destruct (visible w e), (existsb _ l1).
Qed.

Lemma observer_callback_batches_witness :
  let l1 := [mkEntry 2 true; mkEntry 4 false] in
  let l := [mkEntry 4 false; mkEntry 2 true] in
  l ≡ₚ l1
  ∧ classList.contains "visible" (classes (dom (exec (observer_callback l) samplePage) 2))
    = classList.contains "visible" (classes (dom (exec (observer_callback l1) samplePage) 2)).
Proof.
  intros l1 l.
  assert (H : l ≡ₚ l1) by apply perm_swap.
  split; [exact H|].
  exact (proj1 (proj2 (observer_callback_batches l1 [] samplePage)) l 2 "visible" H).
Defined.

(** ** The two ways to dismiss the loader *)

Lemma set_classes_same f n : f (classes n) = classes n → set_classes f n = n.
Proof. intros H. unfold set_classes. rewrite H. by destruct n. Qed.

Lemma hide_again l w e :
  hidden w l = true →
  dom (exec (update (set_classes (classList.add "hidden")) l) w) e = dom w e.
Proof.
  intros H. rewrite dom_update. case_decide; [subst|done].
  apply set_classes_same. by apply add_present.
Qed.

(** X14. The two paths agree and neither can undo the other: on any
    page, the load listener and the timer's closure leave every node the
    same as each other; running either after the other changes no node
    further; and all that either writes is the "hidden" class of the
    loader, the other classes, in order, and the content of every node
    being kept. *)
Theorem loader_paths_agree w e :
  dom (exec hideLoaderOnLoad w) e = dom (exec backupTimeout w) e
  ∧ dom (exec backupTimeout (exec hideLoaderOnLoad w)) e
    = dom (exec hideLoaderOnLoad w) e
  ∧ dom (exec hideLoaderOnLoad (exec backupTimeout w)) e
    = dom (exec backupTimeout w) e
  ∧ (∀ c, otherClasses "hidden" (dom (exec (call c) w) e)
          = otherClasses "hidden" (dom w e)
          ∧ content (dom (exec (call c) w) e) = content (dom w e)
          ∧ (loaderOf w ≠ Some e → dom (exec (call c) w) e = dom w e)).
Proof.
  assert (∀ v x, dom (exec hideLoaderOnLoad v) x = dom (exec backupTimeout v) x)
    as Hsame.
  { intros v x. unfold exec. rewrite hideLoaderOnLoad_run, backupTimeout_run.
    destruct (loaderOf v) as [l|]; [|done].
    destruct (hidden v l) eqn:E; [|done]. simpl fst. by apply hide_again. }
  assert (∀ c v x, loaderOf v = None → dom (exec (call c) v) x = dom v x) as Hnone.
  { intros c v x Hl. unfold exec. by rewrite call_absent. }
  assert (∀ c c' v x, dom (exec (call c') (exec (call c) v)) x
                      = dom (exec (call c) v) x) as Hagain.
  { intros c c' v x. destruct (loaderOf v) as [l|] eqn:Hl.
    - destruct (call_hides c v l Hl) as (_ & Hl1 & Hh1).
      destruct c'; unfold exec at 1; simpl call.
      + rewrite hideLoaderOnLoad_run, Hl1. simpl fst. by apply hide_again.
      + rewrite backupTimeout_run, Hl1, Hh1. done.
    - assert (loaderOf (exec (call c) v) = None) as Hl'
        by (unfold exec; by rewrite call_absent).
      by rewrite Hnone. }
  split; [apply Hsame|].
  split; [apply (Hagain HideLoaderOnLoad BackupTimeout)|].
  split; [apply (Hagain BackupTimeout HideLoaderOnLoad)|].
  intros c. unfold exec.
  destruct c; simpl call; [rewrite hideLoaderOnLoad_run | rewrite backupTimeout_run];
    destruct (loaderOf w) as [l|] eqn:Hl; try done;
    try (destruct (hidden w l); [done|]); simpl fst;
    (split; [apply (keeps_otherClasses "hidden"), remove_add|];
     split; [apply keeps_content|];
     intros Hne; apply (keeps_update_ne (λ n, n)); congruence).
Qed.

Lemma loader_paths_agree_witness :
  loaderOf samplePage ≠ Some 17
  ∧ dom (exec (call BackupTimeout) samplePage) 17 = dom samplePage 17
  ∧ dom (exec hideLoaderOnLoad samplePage) 30 = dom (exec backupTimeout samplePage) 30.
Proof.
  assert (H : loaderOf samplePage ≠ Some 17) by by_compute.
  split; [exact H|]. split.
  - exact (proj2 (proj2 (proj2 (proj2 (proj2 (loader_paths_agree samplePage 17)))
                          BackupTimeout)) H).
  - exact (proj1 (loader_paths_agree samplePage 30)).
Defined.

(** ** The registry stays valid *)

Global Instance sameLookups_preorder : PreOrder sameLookups.
Proof.
  split.
  - by intros w.
  - intros w1 w2 w3 [D1 A1] [D2 A2]. split; [congruence|].
    intros e. by rewrite A2, A1.
Qed.











(** ** Start-up *)

Lemma bindI_normal {A B} (m : Init A) (k : A → Init B) p p' a :
  m p = (p', Normal a) → bindI m k p = k a p'.
Proof. intros H. unfold bindI. by rewrite H. Qed.

Lemma bindI_throw {A B} (m : Init A) (k : A → Init B) p p' :
  m p = (p', TypeError) → bindI m k p = (p', TypeError).
Proof. intros H. unfold bindI. by rewrite H. Qed.

Lemma addEventListener_new e type h p :
  sameObject h = false →
  addEventListener (Some e) type h p
  = (mkPage (world p) (listeners p ++ [OnElement e type h]), Normal tt).
Proof. intros H. unfold addEventListener. by rewrite H. Qed.

Lemma forEachI_add type h l : ∀ p,
  sameObject h = false →
  forEachI (λ x, addEventListener (Some x) type h) l p
  = (mkPage (world p) (listeners p ++ map (λ x, OnElement x type h) l), Normal tt).
Proof.
  induction l as [|x l IH]; intros p Hh; simpl.
  - unfold retI. rewrite app_nil_r. by destruct p.
  - rewrite (bindI_normal _ _ p _ tt (addEventListener_new x type h p Hh)).
    rewrite IH by done. simpl. by rewrite <- app_assoc.
Qed.

Lemma initFiltering_run R sel p :
  Filter.select (filter R) = Some sel →
  initFiltering R p
  = (mkPage (set_activeFilterBtn (Filter.filterBtns (filter R) !! 0) (world p))
            (listeners p
             ++ [OnElement sel "click" SelectToggle]
             ++ map (λ x, OnElement x "click" SelectItemClick)
                    (Filter.selectItems (filter R))
             ++ map (λ x, OnElement x "click" FilterBtnClick)
                    (Filter.filterBtns (filter R))),
     Normal tt).
Proof.
  intros Hsel. unfold initFiltering. rewrite Hsel.
  erewrite bindI_normal by (apply addEventListener_new; reflexivity).
  erewrite bindI_normal by (apply forEachI_add; reflexivity).
  erewrite bindI_normal by reflexivity.
  rewrite forEachI_add by reflexivity. simpl.
  by rewrite <- !app_assoc.
Qed.

(** The features initialised once the modal's listeners are attached. *)
Lemma initLater_run R sel p :
  Filter.select (filter R) = Some sel →
  (initFiltering R ;;; initContactForm R ;;; initPageNavigation R ;;;
   initScrollAnimations ;;;
   documentAddEventListener "DOMContentLoaded" LoaderSetup)%init p
  = (mkPage (set_activeFilterBtn (Filter.filterBtns (filter R) !! 0) (world p))
            (listeners p ++ laterListeners R sel),
     Normal tt).
Proof.
  intros Hsel. unfold initContactForm, initPageNavigation, initScrollAnimations.
  erewrite bindI_normal by (by apply initFiltering_run).
  erewrite bindI_normal by (apply forEachI_add; reflexivity).
  erewrite bindI_normal by (apply forEachI_add; reflexivity).
  erewrite bindI_normal by reflexivity.
  unfold documentAddEventListener, laterListeners. simpl.
  repeat (rewrite <- app_assoc; simpl). reflexivity.
Qed.

Lemma bindI_assoc {A B C} (m : Init A) (k1 : A → Init B) (k2 : B → Init C) p :
  bindI (bindI m k1) k2 p = bindI m (λ a, bindI (k1 a) k2) p.
Proof. unfold bindI. by destruct (m p) as [p' [a|]]. Qed.

Lemma bindI_ext {A B} (m : Init A) (k k' : A → Init B) p :
  (∀ a p', k a p' = k' a p') → bindI m k p = bindI m k' p.
Proof. intros H. unfold bindI. destruct (m p) as [p' [a|]]; [apply H | done]. Qed.

(** The script with the features in a row. *)
Lemma script_unfold p :
  script p
  = (initSidebar (DOMElements (world p)) ;;;
     inittechnologiesModal (DOMElements (world p)) ;;;
     initFiltering (DOMElements (world p)) ;;;
     initContactForm (DOMElements (world p)) ;;;
     initPageNavigation (DOMElements (world p)) ;;;
     initScrollAnimations ;;;
     documentAddEventListener "DOMContentLoaded" LoaderSetup)%init p.
Proof.
  unfold script, initPortfolio. cbv zeta.
  do 5 (rewrite bindI_assoc; apply bindI_ext; intros _ ?).
  reflexivity.
Qed.

Lemma not_elem_of_item_listeners (l : Listener) (xs : list elem) type h h' e :
  h ≠ h' → OnElement e type h ∉ map (λ x, OnElement x type h') xs.
Proof.
  intros Hne Hin. apply list_elem_of_fmap in Hin as (x & Heq & _). congruence.
Qed.

Section modal_listeners.
Variables (R : Registry) (p : Page).
Hypothesis Hfresh : ∀ e, OnElement e "click" ToggleModal ∉ listeners p.

Let items := map (λ x, OnElement x "click" ItemClick)
                 (Technologies.items (technologies R)).

Lemma toggleModal_not_among_items e :
  OnElement e "click" ToggleModal ∉ listeners p ++ items.
Proof.
  intros Hin. apply elem_of_app in Hin as [Hin|Hin].
  - by apply (Hfresh e).
  - apply list_elem_of_fmap in Hin as (x & Heq & _). congruence.
Qed.

Lemma inittechnologiesModal_no_close :
  Modal.closeBtn (Technologies.modal (technologies R)) = None →
  inittechnologiesModal R p
  = (mkPage (world p) (listeners p ++ items), TypeError).
Proof.
  intros Hcb. unfold inittechnologiesModal. rewrite Hcb.
  erewrite bindI_normal by (apply forEachI_add; reflexivity). reflexivity.
Qed.

Lemma inittechnologiesModal_no_overlay cb :
  Modal.closeBtn (Technologies.modal (technologies R)) = Some cb →
  Technologies.overlay (technologies R) = None →
  inittechnologiesModal R p
  = (mkPage (world p) (listeners p ++ items ++ [OnElement cb "click" ToggleModal]),
     TypeError).
Proof.
  intros Hcb Hov. unfold inittechnologiesModal. rewrite Hcb, Hov.
  erewrite bindI_normal by (apply forEachI_add; reflexivity).
  unfold bindI, addEventListener. simpl.
  rewrite bool_decide_false by apply toggleModal_not_among_items.
  simpl. by rewrite <- app_assoc.
Qed.

Lemma inittechnologiesModal_run cb ov :
  Modal.closeBtn (Technologies.modal (technologies R)) = Some cb →
  Technologies.overlay (technologies R) = Some ov →
  inittechnologiesModal R p
  = (mkPage (world p) (listeners p ++ modalListeners R cb ov), Normal tt).
Proof.
  intros Hcb Hov. unfold inittechnologiesModal. rewrite Hcb, Hov.
  erewrite bindI_normal by (apply forEachI_add; reflexivity).
  unfold bindI, addEventListener, modalListeners. simpl.
  rewrite bool_decide_false by apply toggleModal_not_among_items.
  simpl. fold items. destruct (decide (ov = cb)) as [->|Hne].
  - rewrite bool_decide_true by (apply elem_of_app; right; by left).
    simpl. by rewrite <- app_assoc.
  - rewrite bool_decide_false.
    + simpl. repeat (rewrite <- app_assoc; simpl). reflexivity.
    + intros Hin. apply elem_of_app in Hin as [Hin|Hin].
      * by apply (toggleModal_not_among_items ov).
      * apply list_elem_of_singleton in Hin. congruence.
Qed.

End modal_listeners.

Section script_cases.
Variable p : Page.
Hypothesis Hnone : listeners p = [].

Let R := DOMElements (world p).
Let items := map (λ x, OnElement x "click" ItemClick)
                 (Technologies.items (technologies R)).

Lemma script_no_toggleBtn :
  Sidebar.toggleBtn (sidebar R) = None → script p = (p, TypeError).
Proof.
  intros Hb. rewrite script_unfold. fold R. unfold initSidebar. by rewrite Hb.
Qed.

Section with_toggleBtn.
Variable b : elem.
Hypothesis Hb : Sidebar.toggleBtn (sidebar R) = Some b.

Let p1 := mkPage (world p) [OnElement b "click" SidebarToggle].

Lemma initSidebar_run : initSidebar R p = (p1, Normal tt).
Proof.
  unfold initSidebar. rewrite Hb, addEventListener_new by done.
  by rewrite Hnone.
Qed.

Lemma p1_fresh e : OnElement e "click" ToggleModal ∉ listeners p1.
Proof. simpl. intros Hin. apply list_elem_of_singleton in Hin. congruence. Qed.

Lemma script_no_closeBtn :
  Modal.closeBtn (Technologies.modal (technologies R)) = None →
  script p
  = (mkPage (world p) (OnElement b "click" SidebarToggle :: items), TypeError).
Proof.
  intros Hcb. rewrite script_unfold. fold R.
  rewrite (bindI_normal _ _ p p1 tt initSidebar_run).
  by rewrite (bindI_throw _ _ p1 _ (inittechnologiesModal_no_close R p1 Hcb)).
Qed.

Lemma script_no_overlay cb :
  Modal.closeBtn (Technologies.modal (technologies R)) = Some cb →
  Technologies.overlay (technologies R) = None →
  script p
  = (mkPage (world p)
            (OnElement b "click" SidebarToggle
             :: items ++ [OnElement cb "click" ToggleModal]),
     TypeError).
Proof.
  intros Hcb Hov. rewrite script_unfold. fold R.
  rewrite (bindI_normal _ _ p p1 tt initSidebar_run).
  by rewrite (bindI_throw _ _ p1 _
                (inittechnologiesModal_no_overlay R p1 p1_fresh cb Hcb Hov)).
Qed.

Lemma script_no_select cb ov :
  Modal.closeBtn (Technologies.modal (technologies R)) = Some cb →
  Technologies.overlay (technologies R) = Some ov →
  Filter.select (filter R) = None →
  script p
  = (mkPage (world p)
            (OnElement b "click" SidebarToggle :: modalListeners R cb ov),
     TypeError).
Proof.
  intros Hcb Hov Hsel. rewrite script_unfold. fold R.
  rewrite (bindI_normal _ _ p p1 tt initSidebar_run).
  rewrite (bindI_normal _ _ p1 _ tt
             (inittechnologiesModal_run R p1 p1_fresh cb ov Hcb Hov)).
  unfold initFiltering. rewrite Hsel. reflexivity.
Qed.

Lemma script_run cb ov sel :
  Modal.closeBtn (Technologies.modal (technologies R)) = Some cb →
  Technologies.overlay (technologies R) = Some ov →
  Filter.select (filter R) = Some sel →
  script p
  = (mkPage (set_activeFilterBtn (Filter.filterBtns (filter R) !! 0) (world p))
            (OnElement b "click" SidebarToggle
             :: modalListeners R cb ov ++ laterListeners R sel),
     Normal tt).
Proof.
  intros Hcb Hov Hsel. rewrite script_unfold. fold R.
  rewrite (bindI_normal _ _ p p1 tt initSidebar_run).
  rewrite (bindI_normal _ _ p1 _ tt
             (inittechnologiesModal_run R p1 p1_fresh cb ov Hcb Hov)).
  rewrite (initLater_run R sel _ Hsel). reflexivity.
Qed.

End with_toggleBtn.
End script_cases.

(** X16. Starting on a page without listeners, the script completes
    exactly when the sidebar button, the modal's close button, the overlay
    and the dropdown are all found. It writes no node. When it completes
    it has attached, in this order, the sidebar button's listener, one
    listener per technologies item, [toggleModal] on the close button and
    on the overlay (once, if they are one element), then the listeners of
    the dropdown, its options, the filter buttons, the form fields and the
    navigation links, and the two DOMContentLoaded listeners; and the
    tracked filter button is the first one. *)
Theorem script_completes_iff p :
  let R := DOMElements (world p) in
  listeners p = [] →
  (outcomeI script p = Normal tt
   ↔ is_Some (Sidebar.toggleBtn (sidebar R))
     ∧ is_Some (Modal.closeBtn (Technologies.modal (technologies R)))
     ∧ is_Some (Technologies.overlay (technologies R))
     ∧ is_Some (Filter.select (filter R)))
  ∧ (∀ e, dom (world (execI script p)) e = dom (world p) e)
  ∧ document (world (execI script p)) = document (world p)
  ∧ (∀ b cb ov sel,
       Sidebar.toggleBtn (sidebar R) = Some b →
       Modal.closeBtn (Technologies.modal (technologies R)) = Some cb →
       Technologies.overlay (technologies R) = Some ov →
       Filter.select (filter R) = Some sel →
       listeners (execI script p)
       = OnElement b "click" SidebarToggle
         :: modalListeners R cb ov ++ laterListeners R sel
       ∧ activeFilterBtn (world (execI script p))
         = Filter.filterBtns (filter R) !! 0).
Proof.
  intros R Hnone. unfold outcomeI, execI.
  destruct (Sidebar.toggleBtn (sidebar R)) as [b|] eqn:Hb.
  2: { rewrite (script_no_toggleBtn p Hb).
       repeat split; try done; intros (H & _); by destruct H. }
  destruct (Modal.closeBtn (Technologies.modal (technologies R))) as [cb|] eqn:Hcb.
  2: { rewrite (script_no_closeBtn p Hnone b Hb Hcb).
       repeat split; try done; intros (_ & H & _); by destruct H. }
  destruct (Technologies.overlay (technologies R)) as [ov|] eqn:Hov.
  2: { rewrite (script_no_overlay p Hnone b Hb cb Hcb Hov).
       repeat split; try done; intros (_ & _ & H & _); by destruct H. }
  destruct (Filter.select (filter R)) as [sel|] eqn:Hsel.
  2: { rewrite (script_no_select p Hnone b Hb cb ov Hcb Hov Hsel).
       repeat split; try done; intros (_ & _ & _ & H); by destruct H. }
  rewrite (script_run p Hnone b Hb cb ov sel Hcb Hov Hsel). simpl.
  split; [split; [eauto 10 | done]|]. split; [done|]. split; [done|].
  by intros ? ? ? ? [= <-] [= <-] [= <-] [= <-].
Qed.

Lemma script_completes_iff_witness :
  let p := mkPage sampleLoaded [] in
  listeners p = []
  ∧ outcomeI script p = Normal tt
  ∧ activeFilterBtn (world (execI script p)) = Some 16
  ∧ length (listeners (execI script p)) = 16.
Proof.
  intros p.
  assert (H : listeners p = []) by reflexivity.
  destruct (script_completes_iff p H) as (H1 & _ & _ & H2).
  destruct (H2 1 7 11 12) as [H3 H4]; try (vm_compute; reflexivity).
  split; [exact H|]. split; [|split].
  - apply H1. repeat split; vm_compute; eauto.
  - rewrite H4. vm_compute. reflexivity.
  - rewrite H3. vm_compute. reflexivity.
Defined.

(** X17. A missing element stops the whole start-up: if the script
    throws, it has written nothing, and the only listeners it has attached
    are click listeners of the sidebar and of the modal. No listener of
    the dropdown, the filter buttons, the form or the navigation is
    attached, nor either DOMContentLoaded listener, so the loader is then
    never dismissed by this script. Without the sidebar button no listener
    is attached at all. *)
Theorem script_stops_at_first_missing p :
  let R := DOMElements (world p) in
  listeners p = [] →
  outcomeI script p = TypeError →
  world (execI script p) = world p
  ∧ (∀ l, l ∈ listeners (execI script p) →
       ∃ e h, l = OnElement e "click" h
              ∧ (h = SidebarToggle ∨ h = ItemClick ∨ h = ToggleModal))
  ∧ (Sidebar.toggleBtn (sidebar R) = None → listeners (execI script p) = []).
Proof.
  intros R Hnone. unfold outcomeI, execI.
  assert (∀ l, l ∈ map (λ x, OnElement x "click" ItemClick)
                       (Technologies.items (technologies R)) →
               ∃ e h, l = OnElement e "click" h
                      ∧ (h = SidebarToggle ∨ h = ItemClick ∨ h = ToggleModal))
    as Hitems.
  { intros l Hl. apply list_elem_of_fmap in Hl as (x & -> & _). eauto 10. }
  destruct (Sidebar.toggleBtn (sidebar R)) as [b|] eqn:Hb.
  2: { rewrite (script_no_toggleBtn p Hb). simpl. intros _.
       split; [done|]. split; [|done]. intros l Hl. rewrite Hnone in Hl.
       by apply elem_of_nil in Hl. }
  destruct (Modal.closeBtn (Technologies.modal (technologies R))) as [cb|] eqn:Hcb.
  2: { rewrite (script_no_closeBtn p Hnone b Hb Hcb). simpl. intros _.
       split; [done|]. split; [|done]. intros l Hl.
       apply elem_of_cons in Hl as [->|Hl]; [eauto 10 | by apply Hitems]. }
  destruct (Technologies.overlay (technologies R)) as [ov|] eqn:Hov.
  2: { rewrite (script_no_overlay p Hnone b Hb cb Hcb Hov). simpl. intros _.
       split; [done|]. split; [|done]. intros l Hl.
       apply elem_of_cons in Hl as [->|Hl]; [eauto 10|].
       apply elem_of_app in Hl as [Hl|Hl]; [by apply Hitems|].
       apply list_elem_of_singleton in Hl as ->. eauto 10. }
  destruct (Filter.select (filter R)) as [sel|] eqn:Hsel.
  2: { rewrite (script_no_select p Hnone b Hb cb ov Hcb Hov Hsel). simpl. intros _.
       split; [done|]. split; [|done]. intros l Hl.
       apply elem_of_cons in Hl as [->|Hl]; [eauto 10|].
       unfold modalListeners in Hl.
       apply elem_of_app in Hl as [Hl|Hl]; [by apply Hitems|].
       apply elem_of_cons in Hl as [->|Hl]; [eauto 10|].
       destruct (decide (ov = cb)); [by apply elem_of_nil in Hl|].
       apply list_elem_of_singleton in Hl as ->. eauto 10. }
  rewrite (script_run p Hnone b Hb cb ov sel Hcb Hov Hsel). simpl. done.
Qed.

Lemma script_stops_at_first_missing_witness :
  let p := mkPage (set_dom (λ σ, <[12 := blank]> σ) sampleLoaded) [] in
  listeners p = []
  ∧ outcomeI script p = TypeError
  ∧ world (execI script p) = world p
  ∧ (OnDocument "DOMContentLoaded" LoaderSetup ∉ listeners (execI script p)).
Proof.
  intros p.
  assert (H1 : listeners p = []) by reflexivity.
  assert (H2 : outcomeI script p = TypeError) by (vm_compute; reflexivity).
  destruct (script_stops_at_first_missing p H1 H2) as (H3 & H4 & _).
  split; [exact H1|]. split; [exact H2|]. split; [exact H3|].
  intros Hin. destruct (H4 _ Hin) as (e & h & Heq & _). discriminate Heq.
Defined.

(** ** The listeners an event finds *)

Lemma handlersOf_app l1 l2 e type :
  handlersOf (l1 ++ l2) e type = handlersOf l1 e type ++ handlersOf l2 e type.
Proof. apply omap_app. Qed.

Lemma handlersOf_cons_other e' type' h l e type :
  ¬ (e' = e ∧ type' = type) →
  handlersOf (OnElement e' type' h :: l) e type = handlersOf l e type.
Proof. intros H. unfold handlersOf. simpl. by rewrite bool_decide_false. Qed.

Lemma handlersOf_absent type' h xs e type :
  e ∉ xs ∨ type' ≠ type →
  handlersOf (map (λ x, OnElement x type' h) xs) e type = [].
Proof.
  intros H. induction xs as [|x xs IH]; [done|]. cbn [map].
  rewrite handlersOf_cons_other.
  - apply IH. destruct H as [H|H]; [left|by right].
    intros Hin. apply H. by right.
  - intros [-> ->]. destruct H as [H|H]; [apply H; by left | done].
Qed.

Lemma handlersOf_once type h xs e :
  NoDup xs → e ∈ xs →
  handlersOf (map (λ x, OnElement x type h) xs) e type = [h].
Proof.
  induction xs as [|x xs IH]; intros Hnd Hin; [by apply elem_of_nil in Hin|].
  apply list.NoDup_cons in Hnd as [Hx Hnd]. cbn [map].
  destruct (decide (x = e)) as [->|Hne].
  - change (handlersOf (OnElement e type h :: ?l) e type)
      with (match (if bool_decide (e = e ∧ type = type) then Some h else None) with
            | Some y => y :: handlersOf l e type
            | None => handlersOf l e type
            end).
    rewrite bool_decide_true by done.
    rewrite handlersOf_absent; [done | by left].
  - rewrite handlersOf_cons_other by (intros [? _]; done).
    apply IH; [done|]. apply elem_of_cons in Hin as [->|]; done.
Qed.

(** X18. Once the script has completed on a page without other
    listeners, a click that reaches a filter button which is no other
    marked element (not the sidebar button, the close button, the overlay
    or the dropdown, nor an item, an option or a navigation link) finds
    exactly one listener, the filter button's, so the page goes to the
    state that listener leaves; the listeners themselves are unchanged. *)
Theorem click_reaches_filter_button p btn b cb ov sel :
  let R := DOMElements (world p) in
  let started := execI script p in
  listeners p = [] →
  Sidebar.toggleBtn (sidebar R) = Some b →
  Modal.closeBtn (Technologies.modal (technologies R)) = Some cb →
  Technologies.overlay (technologies R) = Some ov →
  Filter.select (filter R) = Some sel →
  NoDup (Filter.filterBtns (filter R)) →
  btn ∈ Filter.filterBtns (filter R) →
  btn ≠ b → btn ≠ cb → btn ≠ ov → btn ≠ sel →
  btn ∉ Technologies.items (technologies R) →
  btn ∉ Filter.selectItems (filter R) →
  btn ∉ Navigation.links (navigation R) →
  handlersOf (listeners started) btn "click" = [FilterBtnClick]
  ∧ world (dispatchAt R btn "click" started)
    = exec (filterBtn_onclick R btn) (world started)
  ∧ listeners (dispatchAt R btn "click" started) = listeners started
  ∧ DOMElements (world started) = R.
Proof.
  intros R started Hnone Hb Hcb Hov Hsel Hnd Hin Nb Ncb Nov Nsel Nitems Nopts Nlinks.
  assert (started
          = mkPage (set_activeFilterBtn (Filter.filterBtns (filter R) !! 0) (world p))
                   (OnElement b "click" SidebarToggle
                    :: modalListeners R cb ov ++ laterListeners R sel)) as Hstarted.
  { subst started. unfold execI.
    by rewrite (script_run p Hnone b Hb cb ov sel Hcb Hov Hsel). }
  assert (handlersOf (listeners started) btn "click" = [FilterBtnClick]) as Hh.
  { rewrite Hstarted. simpl listeners.
    rewrite handlersOf_cons_other by (intros [? _]; done).
    rewrite handlersOf_app. unfold modalListeners, laterListeners.
    rewrite !handlersOf_app.
    rewrite (handlersOf_absent "click" ItemClick) by by left.
    rewrite (handlersOf_absent "click" SelectItemClick) by by left.
    rewrite (handlersOf_absent "input" FormInput) by by right.
    rewrite (handlersOf_absent "click" NavLinkClick) by by left.
    rewrite (handlersOf_once "click" FilterBtnClick) by done.
    rewrite !handlersOf_cons_other by (intros [? _]; done).
    destruct (decide (ov = cb));
      rewrite ?handlersOf_cons_other by (intros [? _]; done); reflexivity. }
  split; [exact Hh|]. split; [|split; [done|]].
  - unfold dispatchAt. rewrite Hh. reflexivity.
  - rewrite Hstarted. reflexivity.
Qed.

Lemma click_reaches_filter_button_witness :
  let p := mkPage sampleLoaded [] in
  let started := execI script p in
  handlersOf (listeners started) 17 "click" = [FilterBtnClick]
  ∧ world (dispatchAt sample 17 "click" started)
    = exec (filterBtn_onclick sample 17) (world started).
Proof.
  intros p started.
  assert (H : listeners p = []) by reflexivity.
  destruct (click_reaches_filter_button p 17 1 7 11 12 H
              ltac:(vm_compute; reflexivity) ltac:(vm_compute; reflexivity)
              ltac:(vm_compute; reflexivity) ltac:(vm_compute; reflexivity)
              ltac:(by_compute) ltac:(by_compute)
              ltac:(discriminate) ltac:(discriminate) ltac:(discriminate)
              ltac:(discriminate)
              ltac:(by_compute) ltac:(by_compute) ltac:(by_compute))
    as (H1 & H2 & _).
  split; [exact H1 | exact H2].
Defined.
